(** * A mock stock-price generator, verified

    Shallow embedding of [examples/trading/mock-generator/simple_price_generator.py]:
    the price simulator [generate_price_update], the event emitter
    [send_price_to_http_source] and the driver [main].

    Python floats are IEEE 754 binary64 values.  They are represented by the
    standard library's [spec_float] (53 bits of precision, exponents up to
    1024); every arithmetic operation computes the exact rational result and
    rounds it to the nearest double, ties to even.  Everything the program
    reads from the outside (the [random] module, the clocks, the HTTP
    transport, Ctrl+C) is answered by an environment; what it does to the
    outside (lines printed, requests, sleeps) is recorded in a state. *)

From Stdlib Require Import ZArith QArith Qround Qpower Qabs Lia Lqa Bool List.
From Stdlib Require Import String Ascii DecimalString.
From Stdlib Require Import Floats.SpecFloat.
Import ListNotations.

Local Open Scope string_scope.
Local Open Scope Z_scope.

(** ** Binary64 arithmetic *)

Definition float := spec_float.

(** [2 ^ e] as a rational, for any integer exponent. *)
Definition pow2 (e : Z) : Q := (2 ^ e)%Q.

(** The number a finite double denotes; 0 for zeros (and, by convention, for
    the values that are not numbers). *)
Definition F2Q (x : float) : Q :=
  match x with
  | S754_finite s m e =>
      (inject_Z (if s then Zneg m else Zpos m) * pow2 e)%Q
  | _ => 0%Q
  end.

Definition is_nan (x : float) : bool :=
  match x with S754_nan => true | _ => false end.

Definition is_finite (x : float) : bool :=
  match x with S754_zero _ | S754_finite _ _ _ => true | _ => false end.

Definition sign_bit (x : float) : bool :=
  match x with
  | S754_zero s | S754_infinity s | S754_finite s _ _ => s
  | S754_nan => false
  end.

(** [floor (log2 x)] for a positive rational [x]. *)
Definition mag (x : Q) : Z :=
  let k := Z.log2 (Qnum x) - Z.log2 (Zpos (Qden x)) in
  if Qle_bool (pow2 k) x then k else k - 1.

(** Nearest integer, ties to the even one. *)
Definition round_half_even (x : Q) : Z :=
  let f := Qfloor x in
  match (x - inject_Z f ?= 1 # 2)%Q with
  | Lt => f
  | Eq => if Z.even f then f else f + 1
  | Gt => f + 1
  end.

(** The exponent of the binary64 grid around a positive rational:
    53 significant bits, subnormals from [2^-1074]. *)
Definition grid_exp (x : Q) : Z := Z.max (mag x - 52) (-1074).

(** The double nearest to [(-1)^s * x] for a positive rational [x]:
    round-to-nearest, ties-to-even, overflow to infinity, underflow to a
    signed zero. *)
Definition round_pos (s : bool) (x : Q) : float :=
  let e := grid_exp x in
  match round_half_even (x / pow2 e) with
  | Zpos m =>
      if (Zpos m =? 2 ^ 53) then
        if (e + 1 <=? 971) then S754_finite s (2 ^ 52) (e + 1)
        else S754_infinity s
      else if (e <=? 971) then S754_finite s m e
      else S754_infinity s
  | _ => S754_zero s
  end.

(** The double nearest to any rational; an exact zero gets the sign [szero]. *)
Definition round_to_double (szero : bool) (x : Q) : float :=
  match (x ?= 0)%Q with
  | Eq => S754_zero szero
  | Gt => round_pos false x
  | Lt => round_pos true (- x)
  end.

(** [x * y] on floats. *)
Definition fmul (x y : float) : float :=
  match x, y with
  | S754_nan, _ | _, S754_nan => S754_nan
  | S754_infinity _, S754_zero _ | S754_zero _, S754_infinity _ => S754_nan
  | S754_infinity sx, (S754_infinity sy | S754_finite sy _ _)
  | S754_finite sx _ _, S754_infinity sy => S754_infinity (xorb sx sy)
  | S754_zero sx, (S754_zero sy | S754_finite sy _ _)
  | S754_finite sx _ _, S754_zero sy => S754_zero (xorb sx sy)
  | S754_finite sx mx ex, S754_finite sy my ey =>
      round_pos (xorb sx sy) (Qabs (F2Q x) * Qabs (F2Q y))
  end.

(** [x + y] on floats. *)
Definition fadd (x y : float) : float :=
  match x, y with
  | S754_nan, _ | _, S754_nan => S754_nan
  | S754_infinity sx, S754_infinity sy =>
      if Bool.eqb sx sy then x else S754_nan
  | S754_infinity _, _ => x
  | _, S754_infinity _ => y
  | S754_zero sx, S754_zero sy =>
      if Bool.eqb sx sy then x else S754_zero false
  | S754_zero _, _ => y
  | _, S754_zero _ => x
  | S754_finite _ _ _, S754_finite _ _ _ =>
      round_to_double false (F2Q x + F2Q y)
  end.

(** Unary minus. *)
Definition fneg (x : float) : float := SFopp x.

(** Comparison by value; [None] when an operand is not a number. *)
Definition fcompare (x y : float) : option comparison :=
  match x, y with
  | S754_nan, _ | _, S754_nan => None
  | S754_infinity sx, S754_infinity sy =>
      Some (if sx then (if sy then Eq else Lt) else (if sy then Gt else Eq))
  | S754_infinity s, _ => Some (if s then Lt else Gt)
  | _, S754_infinity s => Some (if s then Gt else Lt)
  | _, _ => Some (F2Q x ?= F2Q y)%Q
  end.

Definition flt (x y : float) : bool :=
  match fcompare x y with Some Lt => true | _ => false end.
Definition fle (x y : float) : bool :=
  match fcompare x y with Some (Lt | Eq) => true | _ => false end.
Definition fgt (x y : float) : bool := flt y x.

(** A float literal of the source: the decimal [q] read as the nearest
    double. *)
Definition lit (q : Q) : float := round_to_double false q.

(** Conversion of a Python int to float: exact up to [2^53], correctly
    rounded beyond.  The program converts 0, 1, 3, [10^9] and a volume below
    [2^53]. *)
Definition float_of_int (n : Z) : float := round_to_double false (inject_Z n).

(** The built-in [max(a, b)] on two floats: the first argument is kept unless
    the second compares strictly greater. *)
Definition pymax (a b : float) : float := if fgt b a then b else a.

(** The built-in [round(x, ndigits)] on a float, for [ndigits >= 0]: the
    value is rounded to the closest multiple of [10^-ndigits], ties to the
    even one, and the decimal result is read back as the nearest double.
    Values that are not finite round to themselves. *)
Definition py_round (x : float) (ndigits : N) : float :=
  match x with
  | S754_finite s _ _ =>
      if (323 <? ndigits)%N then x
      else
        let scale := inject_Z (10 ^ Z.of_N ndigits) in
        match round_half_even (Qabs (F2Q x) * scale) with
        | Zpos n => round_pos s (inject_Z (Zpos n) / scale)
        | _ => S754_zero s
        end
  | _ => x
  end.

(** ** Exceptions and effects *)

Inductive exn :=
| ValueError (msg : string)
| OverflowError (msg : string)
| KeyError (key : string)
| RequestException (msg : string)
| KeyboardInterrupt.

(** [isinstance(e, Exception)]: everything but [KeyboardInterrupt], which
    derives from [BaseException] only. *)
Definition is_Exception (e : exn) : bool :=
  match e with KeyboardInterrupt => false | _ => true end.

(** [str(e)]. *)
Definition exn_str (e : exn) : string :=
  match e with
  | ValueError m | OverflowError m | RequestException m => m
  | KeyError k => "'" ++ k ++ "'"
  | KeyboardInterrupt => ""
  end.

(** The outcome of a computation: a value, a raised exception, or [Running]
    when the observation of a loop that never exits was cut off. *)
Inductive result (A : Type) :=
| Ok (a : A)
| Raise (e : exn)
| Running.
Arguments Ok {A} a.
Arguments Raise {A} e.
Arguments Running {A}.

(** The built-in [int(x)] on a float: truncation towards zero. *)
Definition py_int (x : float) : result Z :=
  match x with
  | S754_nan => Raise (ValueError "cannot convert float NaN to integer")
  | S754_infinity _ =>
      Raise (OverflowError "cannot convert float infinity to integer")
  | S754_zero _ => Ok 0
  | S754_finite s _ _ =>
      let n := Qfloor (Qabs (F2Q x)) in Ok (if s then - n else n)
  end.

(** ** Data *)

(** The observation dict built by the simulator. *)
Record price_data := {
  symbol : string;
  price : float;
  previous_close : float;
  volume : Z;
  timestamp : string
}.

Module Element.
Record t := {
  type : string;
  id : string;
  labels : list string;
  properties : price_data
}.
End Element.

Module Event.
Record t := {
  operation : string;
  element : Element.t;
  timestamp : Z
}.
End Event.

(** What [requests.post] can do: answer with a status code and a body, or
    fail at the transport level with a description. *)
Inductive outcome :=
| Response (status_code : Z) (text : string)
| TransportFailure (description : string).

(** The outside world.  Each source is asked with the number of the call, so
    successive calls may get different answers. *)
Record env := {
  gauss_src : nat -> float -> float -> float;
  uniform_src : nat -> float -> float -> float;
  randint_src : nat -> Z -> Z -> Z;
  sample_src : nat -> list string -> Z -> list string;
  now_src : nat -> string;
  time_src : nat -> float;
  http_src : nat -> string -> Event.t -> outcome;
  interrupt_src : nat -> bool;
  float_str : float -> string
}.

(** What the program has done so far: the number of calls to the [random]
    module and to the clocks, the lines printed, the calls of
    [requests.post] with their address and payload, the sleeps. *)
Record state := {
  draws : nat;
  clock_reads : nat;
  stdout : list string;
  posted : list (string * Event.t);
  slept : list float
}.

Definition initial_state : state :=
  {| draws := 0; clock_reads := 0; stdout := []; posted := []; slept := [] |}.

Definition M (A : Type) : Type := env -> state -> result A * state.

Definition ret {A} (a : A) : M A := fun _ st => (Ok a, st).

Definition bind {A B} (m : M A) (k : A -> M B) : M B :=
  fun E st =>
    match m E st with
    | (Ok a, st') => k a E st'
    | (Raise e, st') => (Raise e, st')
    | (Running, st') => (Running, st')
    end.

Definition lift {A} (r : result A) : M A := fun _ st => (r, st).

Declare Scope monad_scope.
Delimit Scope monad_scope with monad.
Notation "x <- m ;; k" := (bind m (fun x => k))
  (at level 100, m at next level, right associativity) : monad_scope.
Notation "m ;;; k" := (bind m (fun _ => k))
  (at level 100, right associativity) : monad_scope.
Local Open Scope monad_scope.

(** [try: body except Exception as e: handler e]. *)
Definition try_except_Exception {A} (body : M A) (handler : exn -> M A) : M A :=
  fun E st =>
    match body E st with
    | (Raise e, st') =>
        if is_Exception e then handler e E st' else (Raise e, st')
    | r => r
    end.

(** [try: body except KeyboardInterrupt: handler]. *)
Definition try_except_KeyboardInterrupt {A} (body : M A) (handler : M A) : M A :=
  fun E st =>
    match body E st with
    | (Raise KeyboardInterrupt, st') => handler E st'
    | r => r
    end.

Definition next_draw (st : state) : state :=
  {| draws := S (draws st); clock_reads := clock_reads st;
     stdout := stdout st; posted := posted st; slept := slept st |}.

Definition next_clock (st : state) : state :=
  {| draws := draws st; clock_reads := S (clock_reads st);
     stdout := stdout st; posted := posted st; slept := slept st |}.

Definition random_gauss (mu sigma : float) : M float :=
  fun E st => (Ok (gauss_src E (draws st) mu sigma), next_draw st).

Definition random_uniform (a b : float) : M float :=
  fun E st => (Ok (uniform_src E (draws st) a b), next_draw st).

Definition random_randint (a b : Z) : M Z :=
  fun E st =>
    if (b <? a) then (Raise (ValueError "empty range for randrange()"), st)
    else (Ok (randint_src E (draws st) a b), next_draw st).

Definition random_sample (population : list string) (k : Z) : M (list string) :=
  fun E st =>
    if (k <? 0) || (Z.of_nat (List.length population) <? k)
    then (Raise (ValueError "Sample larger than population or is negative"), st)
    else (Ok (sample_src E (draws st) population k), next_draw st).

Definition datetime_now_isoformat : M string :=
  fun E st => (Ok (now_src E (clock_reads st)), next_clock st).

Definition time_time : M float :=
  fun E st => (Ok (time_src E (clock_reads st)), next_clock st).

(** [time.sleep(d)]; Ctrl+C arrives while the program is asleep. *)
Definition time_sleep (d : float) : M unit :=
  fun E st =>
    let st' := {| draws := draws st; clock_reads := clock_reads st;
                  stdout := stdout st; posted := posted st;
                  slept := (slept st ++ [d])%list |} in
    if interrupt_src E (List.length (slept st)) then (Raise KeyboardInterrupt, st')
    else (Ok tt, st').

Definition print (line : string) : M unit :=
  fun _ st =>
    (Ok tt, {| draws := draws st; clock_reads := clock_reads st;
               stdout := (stdout st ++ [line])%list; posted := posted st;
               slept := slept st |}).

(** [requests.post(url, json=event)]. *)
Definition requests_post (url : string) (event : Event.t) : M (Z * string) :=
  fun E st =>
    let st' := {| draws := draws st; clock_reads := clock_reads st;
                  stdout := stdout st; posted := (posted st ++ [(url, event)])%list;
                  slept := slept st |} in
    match http_src E (List.length (posted st)) url event with
    | Response code body => (Ok (code, body), st')
    | TransportFailure d => (Raise (RequestException d), st')
    end.

(** [str(x)] for a float, as the interpreter formats it. *)
Definition float_to_str (x : float) : M string :=
  fun E st => (Ok (float_str E x), st).

(** [str(n)] for an int. *)
Definition int_str (n : Z) : string := NilZero.string_of_int (Z.to_int n).

(** [s * n] for a string. *)
Fixpoint str_repeat (s : string) (n : nat) : string :=
  match n with O => "" | S n' => s ++ str_repeat s n' end.

(** ** The price simulator *)

Definition default_volatility : float := lit 0.02.

Definition generate_price_update (symbol : string) (base_price volatility : float)
  : M price_data :=
  g <- random_gauss (float_of_int 0) volatility ;;
  let change := fmul g base_price in
  let new_price := pymax (fadd base_price change) (lit 1.0) in
  u <- random_uniform (fneg (lit 0.05)) (lit 0.05) ;;
  let previous_close := fmul base_price (fadd (float_of_int 1) u) in
  base_volume <- random_randint 1000000 50000000 ;;
  w <- random_uniform (fneg (lit 0.3)) (lit 0.3) ;;
  volume <- lift (py_int (fmul (float_of_int base_volume)
                               (fadd (float_of_int 1) w))) ;;
  now <- datetime_now_isoformat ;;
  ret {| symbol := symbol;
         price := py_round new_price 2;
         previous_close := py_round previous_close 2;
         volume := volume;
         timestamp := now |}.

(** ** The event emitter *)

Definition send_price_to_http_source (http_url source_id : string)
  (price_data : price_data) : M unit :=
  t <- time_time ;;
  ns <- lift (py_int (fmul t (float_of_int 1000000000))) ;;
  let event :=
    {| Event.operation := "update";
       Event.element :=
         {| Element.type := "node";
            Element.id := "price_" ++ symbol price_data;
            Element.labels := ["stock_prices"];
            Element.properties := price_data |};
       Event.timestamp := ns |} in
  let url := http_url ++ "/sources/" ++ source_id ++ "/events" in
  try_except_Exception
    (response <- requests_post url event ;;
     if (fst response =? 200) then
       p <- float_to_str (price price_data) ;;
       print ("✓ Sent price update for " ++ symbol price_data ++ ": $" ++ p)
     else
       print ("✗ Failed to send " ++ symbol price_data ++ ": "
              ++ int_str (fst response) ++ " - " ++ snd response))
    (fun e => print ("✗ Error sending " ++ symbol price_data ++ ": "
                     ++ exn_str e)).

(** ** The driver *)

Definition http_source_url : string := "http://localhost:9000".
Definition source_id : string := "price-feed".

(** The symbol table: a dict, kept in insertion order. *)
Definition table := list (string * float).

Definition stocks : table :=
  [ ("AAPL", lit 175.50); ("MSFT", lit 405.25); ("GOOGL", lit 140.75);
    ("TSLA", lit 250.30); ("NVDA", lit 880.25); ("META", lit 485.50);
    ("AMZN", lit 178.90); ("AMD", lit 165.30); ("INTC", lit 42.80);
    ("JPM", lit 195.80); ("BAC", lit 34.25); ("WFC", lit 48.90);
    ("GS", lit 425.60); ("V", lit 280.45); ("JNJ", lit 155.20);
    ("PFE", lit 28.75); ("UNH", lit 525.30); ("CVS", lit 72.45);
    ("XOM", lit 105.80); ("CVX", lit 145.60); ("DIS", lit 92.15);
    ("NKE", lit 98.40); ("BA", lit 215.70); ("CAT", lit 285.30) ].

(** [list(d.keys())]. *)
Definition keys (d : table) : list string := map fst d.

(** [d[k]]. *)
Fixpoint getitem (d : table) (k : string) : result float :=
  match d with
  | [] => Raise (KeyError k)
  | (k', v) :: d' => if String.eqb k' k then Ok v else getitem d' k
  end.

(** [d[k] = v]: an existing key keeps its place, a new one goes last. *)
Fixpoint setitem (d : table) (k : string) (v : float) : table :=
  match d with
  | [] => [(k, v)]
  | (k', v') :: d' =>
      if String.eqb k' k then (k', v) :: d' else (k', v') :: setitem d' k v
  end.

(** [for x in xs: body x]. *)
Fixpoint for_each {A} (xs : list A) (body : A -> M unit) : M unit :=
  match xs with
  | [] => ret tt
  | x :: xs' => body x ;;; for_each xs' body
  end.

(** [for x in xs: body], where the body updates a local variable. *)
Fixpoint for_fold {A S} (xs : list A) (body : S -> A -> M S) (s : S) : M S :=
  match xs with
  | [] => ret s
  | x :: xs' => s' <- body s x ;; for_fold xs' body s'
  end.

(** [while True: body]: the loop has no exit of its own; an observation of
    [fuel] iterations that sees no exception ends in [Running]. *)
Fixpoint while_true {S} (fuel : nat) (body : S -> M S) (s : S) : M S :=
  match fuel with
  | O => lift Running
  | Datatypes.S n => s' <- body s ;; while_true n body s'
  end.

(** Phase 1: the initial price of every stock. *)
Definition send_initial_prices (stocks : table) : M unit :=
  for_each stocks (fun item =>
    let '(symbol, base_price) := item in
    price_data <- generate_price_update symbol base_price default_volatility ;;
    send_price_to_http_source http_source_url source_id price_data ;;;
    time_sleep (lit 0.1)).

(** The body of the inner loop of phase 2, for one sampled symbol. *)
Definition update_symbol (stocks : table) (symbol : string) : M table :=
  current_price <- lift (getitem stocks symbol) ;;
  f <- random_uniform (fneg (lit 0.001)) (lit 0.001) ;;
  let stocks := setitem stocks symbol
                  (fmul current_price (fadd (float_of_int 1) f)) in
  base_price <- lift (getitem stocks symbol) ;;
  price_data <- generate_price_update symbol base_price default_volatility ;;
  send_price_to_http_source http_source_url source_id price_data ;;;
  ret stocks.

(** One cycle of phase 2. *)
Definition update_cycle (stocks : table) : M table :=
  num_updates <- random_randint 3 8 ;;
  symbols_to_update <- random_sample (keys stocks) num_updates ;;
  stocks <- for_fold symbols_to_update update_symbol stocks ;;
  d <- random_uniform (float_of_int 1) (float_of_int 3) ;;
  time_sleep d ;;;
  ret stocks.

Definition main (fuel : nat) : M unit :=
  print "Starting simple price generator..." ;;;
  print ("HTTP Source URL: " ++ http_source_url) ;;;
  print ("Source ID: " ++ source_id) ;;;
  print ("Generating prices for " ++ int_str (Z.of_nat (List.length stocks))
         ++ " stocks") ;;;
  print (str_repeat "-" 50) ;;;
  print "Sending initial prices..." ;;;
  send_initial_prices stocks ;;;
  print (str_repeat "-" 50) ;;;
  print "Starting continuous price updates (Ctrl+C to stop)..." ;;;
  try_except_KeyboardInterrupt
    (while_true fuel update_cycle stocks ;;; ret tt)
    (print (String (ascii_of_nat 10) (str_repeat "-" 50)) ;;;
     print "Price generator stopped").

(** ** Notions used in the statements *)

(** The value [round_pos] produces before the exponent range is looked at. *)
Definition rv (x : Q) : Q :=
  (inject_Z (round_half_even (x / pow2 (grid_exp x))) * pow2 (grid_exp x))%Q.

(** [y] is [x] rounded to two decimals: for some integer [n], the decimal
    [n / 100] is a multiple of 0.01 nearest to [x] and [y] is that decimal
    read as a double (with the sign of [x] when it is a zero). *)
Definition rounded_to_2_decimals (x y : float) : Prop :=
  exists n : Z,
    (Qabs (F2Q x * 100 - inject_Z n) <= 1 # 2)%Q /\
    y = round_to_double (sign_bit x) (inject_Z n / 100)%Q.

(** What the program relies on from the outside: [random.uniform(a, b)] and
    [random.randint(a, b)] answer within [a, b]; [random.sample] answers
    [k] elements of the population, distinct when the population is; the
    clock answers a moment between the epoch and [2^63] seconds after it. *)
Record env_ok (E : env) : Prop := {
  uniform_range : forall n a b,
    fle a b = true ->
    fle a (uniform_src E n a b) = true /\ fle (uniform_src E n a b) b = true;
  randint_range : forall n a b,
    a <= b -> a <= randint_src E n a b <= b;
  sample_spec : forall n population k,
    0 <= k <= Z.of_nat (List.length population) ->
    Z.of_nat (List.length (sample_src E n population k)) = k /\
    (NoDup population -> NoDup (sample_src E n population k)) /\
    incl (sample_src E n population k) population;
  time_range : forall n,
    fle (float_of_int 0) (time_src E n) = true /\
    fle (time_src E n) (float_of_int (2 ^ 63)) = true
}.

(** The draws of a call of the simulator entered in state [st], in the order
    the call makes them. *)
Definition draw_gauss (E : env) (st : state) (volatility : float) : float :=
  gauss_src E (draws st) (float_of_int 0) volatility.
Definition draw_close (E : env) (st : state) : float :=
  uniform_src E (1 + draws st) (fneg (lit 0.05)) (lit 0.05).
Definition draw_base_volume (E : env) (st : state) : Z :=
  randint_src E (2 + draws st) 1000000 50000000.
Definition draw_volume_factor (E : env) (st : state) : float :=
  uniform_src E (3 + draws st) (fneg (lit 0.3)) (lit 0.3).

(** The same environment with another source of normal draws. *)
Definition with_gauss (E : env) (g : nat -> float -> float -> float) : env :=
  {| gauss_src := g;
     uniform_src := uniform_src E;
     randint_src := randint_src E;
     sample_src := sample_src E;
     now_src := now_src E;
     time_src := time_src E;
     http_src := http_src E;
     interrupt_src := interrupt_src E;
     float_str := float_str E |}.

(** The state a call of the simulator leaves: four draws, one clock read. *)
Definition after_generate (st : state) : state :=
  {| draws := 4 + draws st; clock_reads := 1 + clock_reads st;
     stdout := stdout st; posted := posted st; slept := slept st |}.

(** The envelope of an observation, stamped [ns]. *)
Definition envelope (pd : price_data) (ns : Z) : Event.t :=
  {| Event.operation := "update";
     Event.element :=
       {| Element.type := "node";
          Element.id := "price_" ++ symbol pd;
          Element.labels := ["stock_prices"];
          Element.properties := pd |};
     Event.timestamp := ns |}.

(** The address the driver posts to. *)
Definition events_url : string :=
  http_source_url ++ "/sources/" ++ source_id ++ "/events".

(** [post] is a request of the driver that carries an observation the
    simulator returned for [symbol] at [base_price]. *)
Definition emits (E : env) (sym : string) (base_price : float)
  (post : string * Event.t) : Prop :=
  exists st pd ns,
    generate_price_update sym base_price default_volatility E st
      = (Ok pd, after_generate st) /\
    symbol pd = sym /\
    post = (events_url, envelope pd ns).

(** The line the emitter prints for an observation and an outcome. *)
Definition log_line (E : env) (pd : price_data) (o : outcome) : string :=
  match o with
  | Response code body =>
      if (code =? 200) then
        "✓ Sent price update for " ++ symbol pd ++ ": $" ++ float_str E (price pd)
      else
        "✗ Failed to send " ++ symbol pd ++ ": " ++ int_str code ++ " - " ++ body
  | TransportFailure d => "✗ Error sending " ++ symbol pd ++ ": " ++ d
  end.

(** One pass of the inner loop of phase 2 seen from outside: the stored
    price of [symbol] is multiplied by [1 + f], the simulator runs on the
    stored (new) price, and the observation is posted. *)
Definition update_step (E : env) (symbol : string)
  (tbl : table) (st : state) (tbl' : table) (st' : state) : Prop :=
  exists current pd st1 ns,
    let f := uniform_src E (draws st) (fneg (lit 0.001)) (lit 0.001) in
    let updated := fmul current (fadd (float_of_int 1) f) in
    getitem tbl symbol = Ok current /\
    fle (fneg (lit 0.001)) f = true /\ fle f (lit 0.001) = true /\
    tbl' = setitem tbl symbol updated /\
    getitem tbl' symbol = Ok updated /\
    generate_price_update symbol updated default_volatility E (next_draw st)
      = (Ok pd, st1) /\
    posted st' = (posted st ++ [(events_url, envelope pd ns)])%list.


(** A stored price is a positive double (possibly infinite). *)
Definition positive_price (p : float) : Prop :=
  valid_binary 53 1024 p = true /\ flt (float_of_int 0) p = true.

(** The invariant of the symbol table. *)
Definition table_inv (tbl : table) : Prop :=
  keys tbl = keys stocks /\ Forall (fun item => positive_price (snd item)) tbl.

(** The tables the driver can hold: the seeded one, and any table obtained
    from one of them by a pass of the inner loop of phase 2, the only place
    where the table is written. *)
Inductive reachable (E : env) : table -> Prop :=
| reachable_seed : reachable E stocks
| reachable_update tbl symbol st tbl' st' :
    reachable E tbl ->
    update_symbol tbl symbol E st = (Ok tbl', st') ->
    reachable E tbl'.

(** An environment to run the program in: every draw is the low end of its
    range, the network answers 200 to even-numbered requests and fails on the
    others, and Ctrl+C arrives during the sleep numbered 25. *)
Definition env0 : env :=
  {| gauss_src := fun _ _ _ => S754_zero false;
     uniform_src := fun _ a _ => a;
     randint_src := fun _ a _ => a;
     sample_src := fun _ population k => firstn (Z.to_nat k) population;
     now_src := fun _ => "2025-01-01T00:00:00";
     time_src := fun _ => lit 1700000000.5;
     http_src := fun n _ _ =>
       if Nat.even n then Response 200 "ok" else TransportFailure "refused";
     interrupt_src := fun n => Nat.eqb n 25;
     float_str := fun _ => "<float>" |}.

(** [env0] with every normal draw equal to -0.01, half a standard deviation
    below the mean at the default volatility. *)
Definition env_down : env :=
  with_gauss env0 (fun _ _ _ => fneg (lit 0.01)).

(** ** Notions used in the further statements *)

(** From [st] to [st'] the program made [nd] draws and [nc] clock reads,
    printed [lines], posted [posts] and slept [sleeps], and nothing else. *)
Definition advanced (st st' : state) (nd nc : nat) (lines : list string)
  (posts : list (string * Event.t)) (sleeps : list float) : Prop :=
  draws st' = (nd + draws st)%nat /\
  clock_reads st' = (nc + clock_reads st)%nat /\
  stdout st' = (stdout st ++ lines)%list /\
  posted st' = (posted st ++ posts)%list /\
  slept st' = (slept st ++ sleeps)%list.

(** [post] is the request of a tick for [sym] at [base] that began with the
    draw numbered [d] and the clock read numbered [c]: the four draws
    [d .. d+3] make the observation, the clock read [c] dates it, the clock
    read [c+1] stamps the envelope. *)
Definition tick_of (E : env) (d c : nat) (sym : string) (base : float)
  (post : string * Event.t) : Prop :=
  exists pd ns,
    post = (events_url, envelope pd ns) /\
    symbol pd = sym /\
    price pd =
      py_round (pymax (fadd base (fmul (gauss_src E d (float_of_int 0)
                                          default_volatility) base))
                      (lit 1.0)) 2 /\
    previous_close pd =
      py_round (fmul base (fadd (float_of_int 1)
                             (uniform_src E (1 + d) (fneg (lit 0.05)) (lit 0.05)))) 2 /\
    py_int (fmul (float_of_int (randint_src E (2 + d) 1000000 50000000))
                 (fadd (float_of_int 1)
                    (uniform_src E (3 + d) (fneg (lit 0.3)) (lit 0.3))))
      = Ok (volume pd) /\
    timestamp pd = now_src E c /\
    py_int (fmul (time_src E (1 + c)) (float_of_int 1000000000)) = Ok ns.

(** [line] is a line the emitter prints. *)
Definition is_log_line (E : env) (line : string) : Prop :=
  exists pd o, line = log_line E pd o.

(** What the request for a sampled symbol looks like. *)
Definition request_for (sym : string) (post : string * Event.t) : Prop :=
  fst post = events_url /\
  Element.id (Event.element (snd post)) = ("price_" ++ sym)%string /\
  symbol (Element.properties (Event.element (snd post))) = sym.

(** A pause between two cycles lasts between 1 and 3 seconds. *)
Definition pause_ok (d : float) : Prop :=
  fle (float_of_int 1) d = true /\ fle d (float_of_int 3) = true.

(** [st] after printing [lines]. *)
Definition printed (st : state) (lines : list string) : state :=
  {| draws := draws st; clock_reads := clock_reads st;
     stdout := (stdout st ++ lines)%list; posted := posted st;
     slept := slept st |}.

(** The first Ctrl+C after [n] sleeps arrives during the sleep numbered
    [n + k]. *)
Definition first_interrupt (E : env) (n k : nat) : Prop :=
  interrupt_src E (n + k) = true /\
  forall i, (i < k)%nat -> interrupt_src E (n + i) = false.

(** The lines [main] prints before phase 1. *)
Definition header_lines : list string :=
  [ "Starting simple price generator...";
    "HTTP Source URL: http://localhost:9000";
    "Source ID: price-feed";
    "Generating prices for 24 stocks";
    "--------------------------------------------------";
    "Sending initial prices..." ].

(** The lines [main] prints between the two phases. *)
Definition phase2_lines : list string :=
  [ "--------------------------------------------------";
    "Starting continuous price updates (Ctrl+C to stop)..." ].

(** The lines the handler of Ctrl+C prints. *)
Definition shutdown_lines : list string :=
  [ String (ascii_of_nat 10) "--------------------------------------------------";
    "Price generator stopped" ].

(** The same environment with Ctrl+C arriving at other moments. *)
Definition with_interrupt (E : env) (i : nat -> bool) : env :=
  {| gauss_src := gauss_src E;
     uniform_src := uniform_src E;
     randint_src := randint_src E;
     sample_src := sample_src E;
     now_src := now_src E;
     time_src := time_src E;
     http_src := http_src E;
     interrupt_src := i;
     float_str := float_str E |}.

(** [env0] with Ctrl+C during the fourth pause of phase 1, and with no
    Ctrl+C at all. *)
Definition env_early : env := with_interrupt env0 (fun n => Nat.eqb n 3).
Definition env_forever : env := with_interrupt env0 (fun _ => false).


(** The same environment with another server behind [requests.post]. *)
Definition with_http (E : env) (h : nat -> string -> Event.t -> outcome) : env :=
  {| gauss_src := gauss_src E;
     uniform_src := uniform_src E;
     randint_src := randint_src E;
     sample_src := sample_src E;
     now_src := now_src E;
     time_src := time_src E;
     http_src := h;
     interrupt_src := interrupt_src E;
     float_str := float_str E |}.

(** Two states that agree on everything but the text of the lines printed. *)
Definition same_but_lines (st1 st2 : state) : Prop :=
  draws st1 = draws st2 /\ clock_reads st1 = clock_reads st2 /\
  posted st1 = posted st2 /\ slept st1 = slept st2 /\
  List.length (stdout st1) = List.length (stdout st2).

(** A computation that cannot tell one server from another: run against two
    servers from states that agree but for the text printed, it gives the
    same outcome and states that still agree. *)
Definition server_blind {A} (m : M A) : Prop :=
  forall E h st1 st2,
    same_but_lines st1 st2 ->
    fst (m E st1) = fst (m (with_http E h) st2) /\
    same_but_lines (snd (m E st1)) (snd (m (with_http E h) st2)).

(** A clock that never goes backwards. *)
Definition clock_monotone (E : env) : Prop :=
  forall i j, (i <= j)%nat -> fle (time_src E i) (time_src E j) = true.

(** The timestamps of the envelopes posted so far, in the order of the
    requests. *)
Definition stamps (st : state) : list Z :=
  map (fun post => Event.timestamp (snd post)) (posted st).

(** The timestamps posted so far are in non-decreasing order, and none
    exceeds a timestamp that a later clock read can give. *)
Definition stamps_sorted (E : env) (st : state) : Prop :=
  ForallOrdPairs Z.le (stamps st) /\
  forall s c n,
    In s (stamps st) -> (clock_reads st <= c)%nat ->
    py_int (fmul (time_src E c) (float_of_int 1000000000)) = Ok n -> s <= n.

(** A computation that keeps the timestamps in order and never turns the
    clock back. *)
Definition keeps_stamps_sorted {A} (m : M A) : Prop :=
  forall E st,
    env_ok E -> clock_monotone E -> stamps_sorted E st ->
    stamps_sorted E (snd (m E st)) /\
    (clock_reads st <= clock_reads (snd (m E st)))%nat.

Arguments lit : simpl never.
Arguments float_of_int : simpl never.
Arguments fmul : simpl never.
Arguments fadd : simpl never.
Arguments fneg : simpl never.
Arguments pymax : simpl never.
Arguments py_round : simpl never.
Arguments py_int : simpl never.
Arguments fle : simpl never.
Arguments flt : simpl never.

Local Open Scope Q_scope.

Ltac qcompare_spec H :=
  match type of H with
  | (_ ?= _) = Eq => apply Qeq_alt in H
  | (_ ?= _) = Lt => apply Qlt_alt in H
  | (_ ?= _) = Gt => apply Qgt_alt in H
  end.

(** * Binary64 arithmetic: rounding is monotone and lands on doubles *)

Lemma pow2_pos e : 0 < pow2 e.
Proof. apply Qpower_0_lt. reflexivity. Qed.

Lemma pow2_add a b : pow2 (a + b) == pow2 a * pow2 b.
Proof. apply Qpower_plus. discriminate. Qed.

Lemma pow2_le a b : (a <= b)%Z -> pow2 a <= pow2 b.
Proof. intro H. apply Qpower_le_compat_l; [exact H | discriminate]. Qed.

Lemma pow2_lt a b : (a < b)%Z -> pow2 a < pow2 b.
Proof. intro H. apply Qpower_lt_compat_l; [exact H | reflexivity]. Qed.

Lemma pow2_lt_inv a b : pow2 a < pow2 b -> (a < b)%Z.
Proof. intro H. apply (Qpower_lt_compat_l_inv 2); [exact H | reflexivity]. Qed.

Lemma pow2_Z n : (0 <= n)%Z -> pow2 n == inject_Z (2 ^ n).
Proof. intro H. unfold pow2. rewrite Zpower_Qpower by exact H. reflexivity. Qed.

Lemma pow2_sub a b : pow2 (a - b) == pow2 a / pow2 b.
Proof.
  unfold Qdiv. replace (a - b)%Z with (a + - b)%Z by ring.
  rewrite pow2_add. unfold pow2 at 2. rewrite Qpower_opp. reflexivity.
Qed.

(** [mag] *)
Lemma Zlog2_bounds n : (0 < n)%Z -> inject_Z n < pow2 (Z.log2 n + 1) /\ pow2 (Z.log2 n) <= inject_Z n.
Proof.
  intro H. pose proof (Z.log2_spec n H) as [H1 H2].
  pose proof (Z.log2_nonneg n).
  rewrite !pow2_Z by lia. rewrite <- Zlt_Qlt, <- Zle_Qle.
  replace (Z.log2 n + 1)%Z with (Z.succ (Z.log2 n)) by lia. lia.
Qed.

Lemma Q_as_div x : x == inject_Z (Qnum x) / inject_Z (Zpos (Qden x)).
Proof. destruct x as [n d]. simpl. rewrite Qmake_Qdiv. reflexivity. Qed.

Lemma mag_spec x : 0 < x -> pow2 (mag x) <= x /\ x < pow2 (mag x + 1).
Proof.
  intro Hx. unfold mag.
  set (k := (Z.log2 (Qnum x) - Z.log2 (Zpos (Qden x)))%Z).
  assert (Hn : (0 < Qnum x)%Z).
  { destruct x as [n d]. unfold Qlt in Hx. simpl in *. lia. }
  destruct (Zlog2_bounds _ Hn) as [Hn1 Hn2].
  destruct (Zlog2_bounds (Zpos (Qden x)) eq_refl) as [Hd1 Hd2].
  assert (Hd : 0 < inject_Z (Zpos (Qden x))) by reflexivity.
  set (a := Z.log2 (Qnum x)) in *. set (b := Z.log2 (Zpos (Qden x))) in *.
  assert (Hup : x < pow2 (k + 1)).
  { rewrite (Q_as_div x) at 1. apply Qlt_shift_div_r; [exact Hd|].
    eapply Qlt_le_trans; [exact Hn1|].
    replace (a + 1)%Z with ((k + 1) + b)%Z by (unfold k; ring).
    rewrite pow2_add. apply Qmult_le_l; [apply pow2_pos | exact Hd2]. }
  assert (Hlo : pow2 (k - 1) < x).
  { rewrite (Q_as_div x). apply Qlt_shift_div_l; [exact Hd|].
    eapply Qlt_le_trans; [|exact Hn2].
    replace a with ((k - 1) + (b + 1))%Z by (unfold k; ring).
    rewrite pow2_add. apply Qmult_lt_l; [apply pow2_pos | exact Hd1]. }
  destruct (Qle_bool (pow2 k) x) eqn:Hb.
  - apply Qle_bool_iff in Hb. split; assumption.
  - assert (x < pow2 k).
    { apply Qnot_le_lt. intro Hc. apply Qle_bool_iff in Hc. congruence. }
    replace (k - 1 + 1)%Z with k by ring. split; [apply Qlt_le_weak|]; assumption.
Qed.

Lemma mag_unique x k : pow2 k <= x -> x < pow2 (k + 1) -> mag x = k.
Proof.
  intros H1 H2.
  assert (Hx : 0 < x) by (eapply Qlt_le_trans; [apply pow2_pos | exact H1]).
  destruct (mag_spec x Hx) as [H3 H4].
  assert (mag x < k + 1)%Z by (apply pow2_lt_inv; eapply Qle_lt_trans; eassumption).
  assert (k < mag x + 1)%Z by (apply pow2_lt_inv; eapply Qle_lt_trans; eassumption).
  lia.
Qed.

Lemma mag_le x y : 0 < x -> x <= y -> (mag x <= mag y)%Z.
Proof.
  intros Hx Hxy.
  assert (Hy : 0 < y) by (eapply Qlt_le_trans; eassumption).
  destruct (mag_spec x Hx) as [H1 _]. destruct (mag_spec y Hy) as [_ H2].
  assert (mag x < mag y + 1)%Z.
  { apply pow2_lt_inv. eapply Qle_lt_trans; [exact H1|]. eapply Qle_lt_trans; eassumption. }
  lia.
Qed.

Lemma mag_comp x y : 0 < x -> x == y -> mag x = mag y.
Proof.
  intros Hx Hxy. symmetry. destruct (mag_spec x Hx) as [H1 H2].
  apply mag_unique; rewrite <- Hxy; assumption.
Qed.

Lemma rhe_cases x :
  let f := Qfloor x in
  (x - inject_Z f < 1 # 2 /\ round_half_even x = f) \/
  (x - inject_Z f == 1 # 2 /\ (round_half_even x = f \/ round_half_even x = (f + 1)%Z)) \/
  (1 # 2 < x - inject_Z f /\ round_half_even x = (f + 1)%Z).
Proof.
  intro f. unfold round_half_even. fold f.
  destruct (x - inject_Z f ?= 1 # 2) eqn:Hc.
  - right; left. apply Qeq_alt in Hc. split; [exact Hc|]. destruct (Z.even f); auto.
  - left. apply Qlt_alt in Hc. auto.
  - right; right. apply Qgt_alt in Hc. auto.
Qed.

Lemma rhe_comp x y : x == y -> round_half_even x = round_half_even y.
Proof.
  intro H. unfold round_half_even. rewrite (Qfloor_comp _ _ H).
  assert (Hc : (x - inject_Z (Qfloor y) ?= 1 # 2) = (y - inject_Z (Qfloor y) ?= 1 # 2)).
  { apply Qcompare_comp; [rewrite H|]; reflexivity. }
  rewrite Hc. reflexivity.
Qed.

Lemma rhe_Z n : round_half_even (inject_Z n) = n.
Proof.
  unfold round_half_even. rewrite Qfloor_Z.
  assert (Hc : (inject_Z n - inject_Z n ?= 1 # 2) = Lt).
  { apply Qlt_alt. unfold Qminus. rewrite Qplus_opp_r. reflexivity. }
  rewrite Hc. reflexivity.
Qed.

Lemma floor_bounds x : inject_Z (Qfloor x) <= x /\ x < inject_Z (Qfloor x) + 1.
Proof.
  split; [apply Qfloor_le|].
  pose proof (Qlt_floor x) as H. rewrite inject_Z_plus in H. exact H.
Qed.

Lemma rhe_bounds x :
  inject_Z (round_half_even x) - (1 # 2) <= x /\ x <= inject_Z (round_half_even x) + (1 # 2).
Proof.
  pose proof (floor_bounds x) as [H1 H2].
  destruct (rhe_cases x) as [[Ha Hb]|[[Ha [Hb|Hb]]|[Ha Hb]]]; rewrite Hb;
    try rewrite inject_Z_plus; change (inject_Z 1) with 1; split; lra.
Qed.

Lemma rhe_mono x y : x <= y -> (round_half_even x <= round_half_even y)%Z.
Proof.
  intro Hxy. pose proof (Qfloor_resp_le _ _ Hxy) as Hf.
  pose proof (floor_bounds x) as [Hx1 Hx2]. pose proof (floor_bounds y) as [Hy1 Hy2].
  destruct (Z.eq_dec (Qfloor x) (Qfloor y)) as [He|Hne].
  - unfold round_half_even. rewrite <- He.
    destruct (x - inject_Z (Qfloor x) ?= 1 # 2) eqn:Hcx;
      destruct (y - inject_Z (Qfloor x) ?= 1 # 2) eqn:Hcy;
      qcompare_spec Hcx; qcompare_spec Hcy;
      try (exfalso; lra); destruct (Z.even (Qfloor x)); lia.
  - assert (round_half_even x <= Qfloor x + 1)%Z.
    { destruct (rhe_cases x) as [[_ Hb]|[[_ [Hb|Hb]]|[_ Hb]]]; rewrite Hb; lia. }
    assert (Qfloor y <= round_half_even y)%Z.
    { destruct (rhe_cases y) as [[_ Hb]|[[_ [Hb|Hb]]|[_ Hb]]]; rewrite Hb; lia. }
    lia.
Qed.

Lemma rhe_nonneg x : 0 <= x -> (0 <= round_half_even x)%Z.
Proof. intro H. rewrite <- (rhe_Z 0). apply rhe_mono. exact H. Qed.

Lemma grid_exp_le x y : 0 < x -> x <= y -> (grid_exp x <= grid_exp y)%Z.
Proof. intros Hx Hxy. unfold grid_exp. pose proof (mag_le x y Hx Hxy). lia. Qed.

Lemma div_pow2_le x y e : x <= y -> x / pow2 e <= y / pow2 e.
Proof.
  intro H. unfold Qdiv. apply Qmult_le_compat_r; [exact H|].
  apply Qlt_le_weak, Qinv_lt_0_compat, pow2_pos.
Qed.

Lemma div_pow2_pow2 a b : pow2 a / pow2 b == pow2 (a - b).
Proof. symmetry. apply pow2_sub. Qed.

Lemma rhe_pow2_scaled k e : (e <= k)%Z -> inject_Z (round_half_even (pow2 k / pow2 e)) * pow2 e == pow2 k.
Proof.
  intro H. rewrite (rhe_comp _ (inject_Z (2 ^ (k - e)))).
  - rewrite rhe_Z. rewrite <- pow2_Z by lia. rewrite <- pow2_add. 
    replace (k - e + e)%Z with k by ring. reflexivity.
  - rewrite div_pow2_pow2. apply pow2_Z. lia.
Qed.

Lemma rv_mono x y : 0 < x -> x <= y -> rv x <= rv y.
Proof.
  intros Hx Hxy. assert (Hy : 0 < y) by (eapply Qlt_le_trans; eassumption).
  pose proof (grid_exp_le x y Hx Hxy) as He.
  unfold rv. destruct (Z.eq_dec (grid_exp x) (grid_exp y)) as [Heq|Hne].
  - rewrite Heq. apply Qmult_le_compat_r; [|apply Qlt_le_weak, pow2_pos].
    rewrite <- Zle_Qle. apply rhe_mono. apply div_pow2_le. exact Hxy.
  - set (ex := grid_exp x) in *. set (ey := grid_exp y) in *.
    assert (Hlt : (ex < ey)%Z) by lia.
    assert (Hey : (ey = mag y - 52)%Z) by (unfold ey, ex, grid_exp in *; lia).
    assert (Hex : (mag x - 52 <= ex)%Z) by (unfold ex, grid_exp; lia).
    destruct (mag_spec x Hx) as [_ Hx2]. destruct (mag_spec y Hy) as [Hy1 _].
    apply Qle_trans with (pow2 (ey + 52)).
    + rewrite <- (rhe_pow2_scaled (ey + 52) ex) by lia.
      apply Qmult_le_compat_r; [|apply Qlt_le_weak, pow2_pos].
      rewrite <- Zle_Qle. apply rhe_mono. apply div_pow2_le.
      apply Qlt_le_weak. eapply Qlt_le_trans; [exact Hx2|]. apply pow2_le. lia.
    + rewrite <- (rhe_pow2_scaled (ey + 52) ey) by lia.
      apply Qmult_le_compat_r; [|apply Qlt_le_weak, pow2_pos].
      rewrite <- Zle_Qle. apply rhe_mono. apply div_pow2_le.
      replace (ey + 52)%Z with (mag y) by lia. exact Hy1.
Qed.

Lemma digits2_pos_log2 p : Z.pos (digits2_pos p) = (Z.log2 (Z.pos p) + 1)%Z.
Proof.
  assert (H : forall q, digits2_pos q = Pos.size q).
  { induction q; simpl; congruence. }
  rewrite H. destruct p; simpl; lia.
Qed.

Lemma digits2_pos_le p k : (0 <= k)%Z -> (Z.pos p < 2 ^ k)%Z -> (Z.pos (digits2_pos p) <= k)%Z.
Proof.
  intros Hk H. rewrite digits2_pos_log2.
  assert (Z.log2 (Z.pos p) < k)%Z by (apply Z.log2_lt_pow2; lia). lia.
Qed.

Lemma digits2_pos_eq p k : (0 <= k)%Z -> (2 ^ k <= Z.pos p < 2 ^ (k + 1))%Z -> Z.pos (digits2_pos p) = (k + 1)%Z.
Proof.
  intros Hk H. rewrite digits2_pos_log2. f_equal.
  apply Z.log2_unique; [exact Hk|]. replace (Z.succ k) with (k + 1)%Z by lia. exact H.
Qed.

Lemma bounded_normal p e :
  (2 ^ 52 <= Z.pos p < 2 ^ 53)%Z -> (-1074 <= e <= 971)%Z -> bounded 53 1024 p e = true.
Proof.
  intros Hp He. unfold bounded, canonical_mantissa, fexp, SpecFloat.emin.
  rewrite (digits2_pos_eq p 52) by (simpl; lia).
  apply andb_true_iff. split; [apply Z.eqb_eq | apply Z.leb_le]; lia.
Qed.

Lemma bounded_subnormal p :
  (Z.pos p < 2 ^ 53)%Z -> bounded 53 1024 p (-1074) = true.
Proof.
  intros Hp. unfold bounded, canonical_mantissa, fexp, SpecFloat.emin.
  pose proof (digits2_pos_le p 53 ltac:(lia) Hp).
  apply andb_true_iff. split; [apply Z.eqb_eq | apply Z.leb_le]; lia.
Qed.

Lemma scaled_lt x e k : x < pow2 (k + e) -> x / pow2 e < pow2 k.
Proof.
  intro H. apply Qlt_shift_div_r; [apply pow2_pos|]. rewrite <- pow2_add. exact H.
Qed.

Lemma scaled_ge x e k : pow2 (k + e) <= x -> pow2 k <= x / pow2 e.
Proof.
  intro H. apply Qle_shift_div_l; [apply pow2_pos|]. rewrite <- pow2_add. exact H.
Qed.

Lemma rhe_le_pow2 q k : (0 <= k)%Z -> q <= pow2 k -> (round_half_even q <= 2 ^ k)%Z.
Proof.
  intros Hk H. rewrite <- (rhe_Z (2 ^ k)). apply rhe_mono. rewrite <- pow2_Z by exact Hk. exact H.
Qed.

Lemma rhe_ge_pow2 q k : (0 <= k)%Z -> pow2 k <= q -> (2 ^ k <= round_half_even q)%Z.
Proof.
  intros Hk H. rewrite <- (rhe_Z (2 ^ k)) at 1. apply rhe_mono. rewrite <- pow2_Z by exact Hk. exact H.
Qed.

(** The three facts about the scaled mantissa. *)
Lemma mantissa_bounds x :
  0 < x ->
  let e := grid_exp x in
  let m := round_half_even (x / pow2 e) in
  (-1074 <= e)%Z /\ (0 <= m <= 2 ^ 53)%Z /\ (e = (-1074)%Z \/ 2 ^ 52 <= m)%Z.
Proof.
  intros Hx e m. destruct (mag_spec x Hx) as [H1 H2].
  assert (He : (-1074 <= e)%Z) by (unfold e, grid_exp; lia).
  assert (He' : (mag x - 52 <= e)%Z) by (unfold e, grid_exp; lia).
  split; [exact He|]. split; [split|].
  - apply rhe_nonneg. apply Qle_shift_div_l; [apply pow2_pos|]. lra.
  - apply rhe_le_pow2; [lia|]. apply Qlt_le_weak, scaled_lt.
    eapply Qlt_le_trans; [exact H2|]. apply pow2_le. lia.
  - destruct (Z.eq_dec e (-1074)) as [|Hne]; [left; assumption|right].
    assert (e = mag x - 52)%Z by (unfold e, grid_exp in *; lia).
    apply rhe_ge_pow2; [lia|]. apply scaled_ge.
    replace (52 + e)%Z with (mag x) by lia. exact H1.
Qed.

Lemma inject_pow2_mul e k : (0 <= k)%Z -> inject_Z (2 ^ k) * pow2 e == pow2 (k + e).
Proof. intro H. rewrite <- pow2_Z by exact H. symmetry. apply pow2_add. Qed.

Lemma round_pos_spec s x :
  0 < x ->
  match round_pos s x with
  | S754_zero s' => s' = s /\ rv x == 0
  | S754_finite s' m e =>
      s' = s /\ inject_Z (Z.pos m) * pow2 e == rv x /\ rv x < pow2 1024 /\
      bounded 53 1024 m e = true
  | S754_infinity s' => s' = s /\ pow2 1024 <= rv x
  | S754_nan => False
  end.
Proof.
  intro Hx. pose proof (mantissa_bounds x Hx) as (He & Hm & Hn).
  unfold round_pos, rv. 
  set (e := grid_exp x) in *. set (m := round_half_even (x / pow2 e)) in *.
  destruct m as [|p|p] eqn:Em.
  - split; [reflexivity|]. apply Qmult_0_l.
  - destruct (Z.eqb_spec (Z.pos p) (2 ^ 53)) as [E53|N53].
    + rewrite E53.
      destruct (Z.leb_spec (e + 1) 971) as [Hle|Hgt];
        rewrite (inject_pow2_mul e 53) by lia.
      * split; [reflexivity|]. split; [|split].
        -- change (Z.pos (2 ^ 52)) with (2 ^ 52)%Z. rewrite (inject_pow2_mul (e + 1) 52) by lia.
           replace (52 + (e + 1))%Z with (53 + e)%Z by ring. reflexivity.
        -- apply pow2_lt. lia.
        -- apply bounded_normal; [simpl; lia | lia].
      * split; [reflexivity|]. apply pow2_le. lia.
    + destruct (Z.leb_spec e 971) as [Hle|Hgt].
      * split; [reflexivity|]. split; [reflexivity|]. split.
        -- apply Qlt_le_trans with (inject_Z (2 ^ 53) * pow2 e).
           ++ apply Qmult_lt_compat_r; [apply pow2_pos|]. rewrite <- Zlt_Qlt. lia.
           ++ rewrite (inject_pow2_mul e 53) by lia. apply pow2_le. lia.
        -- destruct Hn as [Hn|Hn].
           ++ rewrite Hn. apply bounded_subnormal. lia.
           ++ apply bounded_normal; lia.
      * split; [reflexivity|]. destruct Hn as [Hn|Hn]; [lia|].
        apply Qle_trans with (inject_Z (2 ^ 52) * pow2 e).
        -- rewrite (inject_pow2_mul e 52) by lia. apply pow2_le. lia.
        -- apply Qmult_le_compat_r; [|apply Qlt_le_weak, pow2_pos]. rewrite <- Zle_Qle. exact Hn.
  - lia.
Qed.

Lemma F2Q_pos m e : 0 < inject_Z (Z.pos m) * pow2 e.
Proof. apply Qmult_lt_0_compat; [reflexivity | apply pow2_pos]. Qed.

Lemma F2Q_neg m e : inject_Z (Z.neg m) * pow2 e < 0.
Proof.
  pose proof (F2Q_pos m e) as H.
  assert (E : inject_Z (Z.neg m) * pow2 e == - (inject_Z (Z.pos m) * pow2 e)).
  { change (Z.neg m) with (- Z.pos m)%Z. rewrite inject_Z_opp. ring. }
  rewrite E. lra.
Qed.

Lemma F2Q_sign s m e :
  F2Q (S754_finite s m e) == (if s then -1 else 1) * (inject_Z (Z.pos m) * pow2 e).
Proof.
  destruct s; simpl; [|ring].
  change (Z.neg m) with (- Z.pos m)%Z. rewrite inject_Z_opp. ring.
Qed.

Lemma Qabs_F2Q s m e : Qabs (F2Q (S754_finite s m e)) == inject_Z (Z.pos m) * pow2 e.
Proof.
  pose proof (F2Q_pos m e) as H. rewrite F2Q_sign. destruct s.
  - rewrite Qabs_neg by lra. ring.
  - rewrite Qabs_pos by lra. ring.
Qed.

Lemma fle_finite x y :
  is_finite x = true -> is_finite y = true -> (fle x y = true <-> F2Q x <= F2Q y).
Proof.
  intros Hx Hy. unfold fle.
  assert (E : fcompare x y = Some (F2Q x ?= F2Q y)).
  { destruct x, y; try discriminate; reflexivity. }
  rewrite E. rewrite Qle_alt. destruct (F2Q x ?= F2Q y); split; congruence.
Qed.

Lemma flt_finite x y :
  is_finite x = true -> is_finite y = true -> (flt x y = true <-> F2Q x < F2Q y).
Proof.
  intros Hx Hy. unfold flt.
  assert (E : fcompare x y = Some (F2Q x ?= F2Q y)).
  { destruct x, y; try discriminate; reflexivity. }
  rewrite E. rewrite Qlt_alt. destruct (F2Q x ?= F2Q y); split; congruence.
Qed.

Lemma fcompare_antisym x y c :
  fcompare x y = Some c -> fcompare y x = Some (CompOpp c).
Proof.
  destruct x as [sx|sx| |sx mx ex], y as [sy|sy| |sy my ey]; simpl; intro H;
    try discriminate; inversion H; subst; clear H;
    try (rewrite <- Qcompare_antisym; reflexivity);
    try (destruct sx; reflexivity); try (destruct sy; reflexivity).
  destruct sx, sy; reflexivity.
Qed.

Lemma fle_refl x : is_nan x = false -> fle x x = true.
Proof.
  destruct x as [s|s| |s m e]; try discriminate; intros _.
  - reflexivity.
  - destruct s; reflexivity.
  - apply fle_finite; try reflexivity. apply Qle_refl.
Qed.

Lemma fle_not_nan x y : fle x y = true -> is_nan x = false /\ is_nan y = false.
Proof. destruct x, y; try discriminate; auto. Qed.

Lemma flt_fle x y : flt x y = true -> fle x y = true.
Proof. unfold flt, fle. destruct (fcompare x y) as [[]|]; congruence. Qed.

(** Not below and not NaN means at least. *)
Lemma not_flt_fle x y :
  is_nan x = false -> is_nan y = false -> flt x y = false -> fle y x = true.
Proof.
  intros Hx Hy H. unfold flt in H. unfold fle.
  destruct (fcompare x y) as [c|] eqn:E.
  - rewrite (fcompare_antisym _ _ _ E). destruct c; try reflexivity; discriminate.
  - destruct x, y; discriminate.
Qed.

(** Values between two finite bounds are finite and lie between them. *)
Lemma fle_between lo z hi :
  is_finite lo = true -> is_finite hi = true ->
  fle lo z = true -> fle z hi = true ->
  is_finite z = true /\ F2Q lo <= F2Q z /\ F2Q z <= F2Q hi.
Proof.
  intros Hlo Hhi H1 H2.
  assert (Hz : is_finite z = true).
  { destruct z as [s|s| |s m e]; try reflexivity.
    - destruct s; [destruct lo | destruct hi]; discriminate.
    - apply fle_not_nan in H1. destruct H1; discriminate. }
  split; [exact Hz|]. split; apply fle_finite; assumption.
Qed.

Lemma finite_pos_shape z :
  is_finite z = true -> 0 < F2Q z -> exists m e, z = S754_finite false m e.
Proof.
  destruct z as [s|s| |s m e]; try discriminate; intros _ H.
  destruct s; [|eauto]. exfalso. pose proof (F2Q_neg m e) as Hn.
    change (F2Q (S754_finite true m e)) with (inject_Z (Z.neg m) * pow2 e) in H. lra.
Qed.

Lemma fle_neginf_l z : is_nan z = false -> fle (S754_infinity true) z = true.
Proof. destruct z as [s|s| |s m e]; try discriminate; try reflexivity. destruct s; reflexivity. Qed.

Lemma fle_posinf_r x : is_nan x = false -> fle x (S754_infinity false) = true.
Proof. destruct x as [s|s| |s m e]; try discriminate; try reflexivity. destruct s; reflexivity. Qed.

Lemma fle_finite_l_inv y z :
  is_finite y = true -> fle y z = true -> is_finite z = true \/ z = S754_infinity false.
Proof.
  intros Hy H. destruct z as [s|s| |s m e]; auto.
  - destruct s; [destruct y; discriminate | auto].
  - apply fle_not_nan in H. destruct H; discriminate.
Qed.

Lemma fle_finite_r_inv x y :
  is_finite y = true -> fle x y = true -> is_finite x = true \/ x = S754_infinity true.
Proof.
  intros Hy H. destruct x as [s|s| |s m e]; auto; try discriminate.
  destruct s; [auto | destruct y; discriminate].
Qed.

Lemma fle_trans x y z : fle x y = true -> fle y z = true -> fle x z = true.
Proof.
  intros H1 H2.
  destruct (fle_not_nan _ _ H1) as [Nx Ny]. destruct (fle_not_nan _ _ H2) as [_ Nz].
  destruct (is_finite y) eqn:Fy.
  - destruct (fle_finite_r_inv _ _ Fy H1) as [Fx | ->]; [|apply fle_neginf_l; exact Nz].
    destruct (fle_finite_l_inv _ _ Fy H2) as [Fz | ->]; [|apply fle_posinf_r; exact Nx].
    apply fle_finite; try assumption.
    apply fle_finite in H1; try assumption. apply fle_finite in H2; try assumption.
    eapply Qle_trans; eassumption.
  - destruct y as [s|s| |s m e]; try discriminate. destruct s.
    + assert (x = S754_infinity true) as ->.
      { destruct x as [s|s| |s m e]; try discriminate. destruct s; [reflexivity|discriminate]. }
      apply fle_neginf_l; exact Nz.
    + assert (z = S754_infinity false) as ->.
      { destruct z as [s|s| |s m e]; try discriminate. destruct s; [discriminate|reflexivity]. }
      apply fle_posinf_r; exact Nx.
Qed.

Lemma rv_nonneg x : 0 < x -> 0 <= rv x.
Proof.
  intro Hx. unfold rv. apply Qmult_le_0_compat; [|apply Qlt_le_weak, pow2_pos].
  change 0 with (inject_Z 0). rewrite <- Zle_Qle. apply rhe_nonneg.
  apply Qle_shift_div_l; [apply pow2_pos|]. lra.
Qed.

Lemma round_pos_mono x y :
  0 < x -> x <= y -> fle (round_pos false x) (round_pos false y) = true.
Proof.
  intros Hx Hxy. assert (Hy : 0 < y) by (eapply Qlt_le_trans; eassumption).
  pose proof (rv_mono x y Hx Hxy) as Hrv.
  pose proof (round_pos_spec false x Hx) as Sx. pose proof (round_pos_spec false y Hy) as Sy.
  destruct (round_pos false x) as [sx|sx| |sx mx ex], (round_pos false y) as [sy|sy| |sy my ey];
    try contradiction.
  - reflexivity.
  - destruct Sy as [-> _]. reflexivity.
  - destruct Sy as (-> & _). apply fle_finite; try reflexivity.
    apply Qlt_le_weak, F2Q_pos.
  - exfalso. destruct Sx as (_ & Sx), Sy as (_ & Sy). pose proof (pow2_pos 1024). lra.
  - destruct Sx as [-> _], Sy as [-> _]. reflexivity.
  - exfalso. destruct Sx as (_ & Sx), Sy as (_ & _ & Sy & _). lra.
  - exfalso. destruct Sx as (_ & Sx & _), Sy as (_ & Sy). pose proof (F2Q_pos mx ex). lra.
  - destruct Sy as [-> _]. reflexivity.
  - destruct Sx as (-> & Sx & _), Sy as (-> & Sy & _). apply fle_finite; try reflexivity.
    simpl. lra.
Qed.

Lemma round_neg_mono x y :
  0 < x -> x <= y -> fle (round_pos true y) (round_pos true x) = true.
Proof.
  intros Hx Hxy. assert (Hy : 0 < y) by (eapply Qlt_le_trans; eassumption).
  pose proof (rv_mono x y Hx Hxy) as Hrv.
  pose proof (round_pos_spec true x Hx) as Sx. pose proof (round_pos_spec true y Hy) as Sy.
  destruct (round_pos true x) as [sx|sx| |sx mx ex], (round_pos true y) as [sy|sy| |sy my ey];
    try contradiction.
  - reflexivity.
  - destruct Sy as [-> _]. reflexivity.
  - destruct Sy as (-> & _). apply fle_finite; try reflexivity.
    apply Qlt_le_weak, F2Q_neg.
  - exfalso. destruct Sx as (_ & Sx), Sy as (_ & Sy). pose proof (pow2_pos 1024). lra.
  - destruct Sx as [-> _], Sy as [-> _]. reflexivity.
  - exfalso. destruct Sx as (_ & Sx), Sy as (_ & _ & Sy & _). lra.
  - exfalso. destruct Sx as (_ & Sx & _), Sy as (_ & Sy). pose proof (F2Q_pos mx ex). lra.
  - destruct Sy as [-> _]. reflexivity.
  - destruct Sx as (-> & Sx & _), Sy as (-> & Sy & _). apply fle_finite; try reflexivity.
    rewrite !F2Q_sign. lra.
Qed.

(** A result of rounding a positive number with sign [false] is at least
    any zero; with sign [true] it is at most any zero. *)
Lemma round_pos_ge_zero x sz : 0 < x -> fle (S754_zero sz) (round_pos false x) = true.
Proof.
  intro Hx. pose proof (round_pos_spec false x Hx) as S.
  destruct (round_pos false x) as [s|s| |s m e]; try contradiction.
  - reflexivity.
  - destruct S as [-> _]. reflexivity.
  - destruct S as (-> & _). apply fle_finite; try reflexivity. apply Qlt_le_weak, F2Q_pos.
Qed.

Lemma round_neg_le_zero x sz : 0 < x -> fle (round_pos true x) (S754_zero sz) = true.
Proof.
  intro Hx. pose proof (round_pos_spec true x Hx) as S.
  destruct (round_pos true x) as [s|s| |s m e]; try contradiction.
  - reflexivity.
  - destruct S as [-> _]. reflexivity.
  - destruct S as (-> & _). apply fle_finite; try reflexivity. apply Qlt_le_weak, F2Q_neg.
Qed.

Lemma round_to_double_mono sx sy x y :
  x <= y -> fle (round_to_double sx x) (round_to_double sy y) = true.
Proof.
  intro Hxy. unfold round_to_double.
  destruct (x ?= 0) eqn:Cx; qcompare_spec Cx; destruct (y ?= 0) eqn:Cy; qcompare_spec Cy;
    try (exfalso; lra).
  - reflexivity.
  - apply round_pos_ge_zero. exact Cy.
  - apply round_neg_le_zero. lra.
  - apply round_neg_mono; lra.
  - apply fle_trans with (S754_zero false);
      [apply round_neg_le_zero | apply round_pos_ge_zero]; lra.
  - apply round_pos_mono; lra.
Qed.

Lemma round_to_double_valid sz x : valid_binary 53 1024 (round_to_double sz x) = true.
Proof.
  unfold round_to_double.
  destruct (x ?= 0) eqn:Cx; qcompare_spec Cx; [reflexivity| |].
  - assert (H : 0 < - x) by lra. pose proof (round_pos_spec true _ H) as S.
    destruct (round_pos true (- x)); try reflexivity. apply S.
  - pose proof (round_pos_spec false _ Cx) as S.
    destruct (round_pos false x); try reflexivity. apply S.
Qed.

Lemma round_pos_valid s x : 0 < x -> valid_binary 53 1024 (round_pos s x) = true.
Proof.
  intro H. pose proof (round_pos_spec s _ H) as S.
  destruct (round_pos s x); try reflexivity. apply S.
Qed.

Lemma round_pos_comp s x y : 0 < x -> x == y -> round_pos s x = round_pos s y.
Proof.
  intros Hx Hxy. unfold round_pos, grid_exp. rewrite (mag_comp x y Hx Hxy).
  rewrite (rhe_comp (x / pow2 (Z.max (mag y - 52) (-1074))) (y / pow2 (Z.max (mag y - 52) (-1074)))).
  - reflexivity.
  - rewrite Hxy. reflexivity.
Qed.

Lemma round_to_double_comp sz x y : x == y -> round_to_double sz x = round_to_double sz y.
Proof.
  intro H. unfold round_to_double.
  assert (Hc : (x ?= 0) = (y ?= 0)) by (apply Qcompare_comp; [exact H | reflexivity]).
  rewrite <- Hc. destruct (x ?= 0) eqn:Cx; qcompare_spec Cx.
  - reflexivity.
  - apply round_pos_comp; [lra | rewrite H; reflexivity].
  - apply round_pos_comp; [lra | exact H].
Qed.

(** Adding a finite float to the float [1.0]. *)
Lemma fadd_one u :
  is_finite u = true ->
  fadd (float_of_int 1) u = round_to_double false (1 + F2Q u).
Proof.
  intro Hu.
  assert (E1 : float_of_int 1 = S754_finite false 4503599627370496 (-52)) by (vm_compute; reflexivity).
  rewrite E1. destruct u as [s|s| |s m e]; try discriminate.
  - vm_compute. reflexivity.
  - cbv beta iota delta [fadd]. apply round_to_double_comp.
    apply Qplus_comp; [vm_compute; reflexivity | reflexivity].
Qed.

Lemma fadd_one_mono u v :
  is_finite u = true -> is_finite v = true -> fle u v = true ->
  fle (fadd (float_of_int 1) u) (fadd (float_of_int 1) v) = true.
Proof.
  intros Hu Hv H. rewrite !fadd_one by assumption.
  apply round_to_double_mono. apply fle_finite in H; try assumption. lra.
Qed.

(** [1 + u] for a draw [u] between two finite bounds. *)
Lemma fadd_one_between lo hi u :
  is_finite lo = true -> is_finite hi = true ->
  fle lo u = true -> fle u hi = true ->
  fle (fadd (float_of_int 1) lo) (fadd (float_of_int 1) u) = true /\
  fle (fadd (float_of_int 1) u) (fadd (float_of_int 1) hi) = true.
Proof.
  intros Hlo Hhi H1 H2.
  destruct (fle_between lo u hi Hlo Hhi H1 H2) as (Hu & _ & _).
  split; apply fadd_one_mono; assumption.
Qed.

Lemma fmul_mono_pos a b a' b' :
  is_finite a = true -> is_finite b = true -> is_finite a' = true -> is_finite b' = true ->
  0 < F2Q a -> F2Q a <= F2Q a' -> 0 < F2Q b -> F2Q b <= F2Q b' ->
  fle (fmul a b) (fmul a' b') = true.
Proof.
  intros Fa Fb Fa' Fb' Pa Ha Pb Hb.
  destruct (finite_pos_shape a Fa Pa) as (ma & ea & ->).
  destruct (finite_pos_shape b Fb Pb) as (mb & eb & ->).
  destruct (finite_pos_shape a' Fa' ltac:(lra)) as (ma' & ea' & ->).
  destruct (finite_pos_shape b' Fb' ltac:(lra)) as (mb' & eb' & ->).
  cbv beta iota delta [fmul xorb]. apply round_pos_mono.
  - rewrite !Qabs_pos by lra. apply Qmult_lt_0_compat; assumption.
  - rewrite !Qabs_pos by lra.
    apply Qmult_le_compat_nonneg; split; try assumption; apply Qlt_le_weak; assumption.
Qed.

Lemma py_int_between z lo hi :
  is_finite lo = true -> is_finite hi = true -> 0 < F2Q lo ->
  fle lo z = true -> fle z hi = true ->
  exists n, py_int z = Ok n /\ (Qfloor (F2Q lo) <= n <= Qfloor (F2Q hi))%Z.
Proof.
  intros Flo Fhi Plo H1 H2.
  destruct (fle_between lo z hi Flo Fhi H1 H2) as (Fz & L1 & L2).
  destruct (finite_pos_shape z Fz ltac:(lra)) as (m & e & ->).
  cbv beta iota delta [py_int]. eexists. split; [reflexivity|].
  rewrite Qabs_pos by lra. split; apply Qfloor_resp_le; assumption.
Qed.

Lemma round_pos_not_nan s x : 0 < x -> is_nan (round_pos s x) = false.
Proof.
  intro H. pose proof (round_pos_spec s x H) as S.
  destruct (round_pos s x); try reflexivity. contradiction.
Qed.

Lemma round_to_double_not_nan sz x : is_nan (round_to_double sz x) = false.
Proof.
  unfold round_to_double. destruct (x ?= 0) eqn:C; qcompare_spec C.
  - reflexivity.
  - apply round_pos_not_nan. lra.
  - apply round_pos_not_nan. exact C.
Qed.

Lemma Qabs_F2Q_pos s m e : 0 < Qabs (F2Q (S754_finite s m e)).
Proof. rewrite Qabs_F2Q. apply F2Q_pos. Qed.

Lemma fmul_finite_not_nan a b :
  is_finite a = true -> is_finite b = true -> is_nan (fmul a b) = false.
Proof.
  destruct a as [sa|sa| |sa ma ea], b as [sb|sb| |sb mb eb]; try discriminate; intros _ _;
    try reflexivity.
  cbv beta iota delta [fmul]. apply round_pos_not_nan.
  apply Qmult_lt_0_compat; apply Qabs_F2Q_pos.
Qed.

Lemma fadd_finite_not_nan a b :
  is_finite a = true -> is_nan b = false -> is_nan (fadd a b) = false.
Proof.
  destruct a as [sa|sa| |sa ma ea], b as [sb|sb| |sb mb eb]; try discriminate; intros _ _;
    try reflexivity.
  - cbv beta iota delta [fadd]. destruct (Bool.eqb sa sb); reflexivity.
  - cbv beta iota delta [fadd]. apply round_to_double_not_nan.
Qed.

Lemma pymax_ge a b :
  is_nan a = false -> is_nan b = false -> fle b (pymax a b) = true.
Proof.
  intros Ha Hb. unfold pymax, fgt. destruct (flt a b) eqn:E.
  - apply fle_refl. exact Hb.
  - apply not_flt_fle; assumption.
Qed.

Lemma pymax_nan b : pymax S754_nan b = S754_nan.
Proof. unfold pymax, fgt, flt. destruct b; reflexivity. Qed.

(** [round(x, 2)] on a finite, nonzero float. *)
Lemma py_round_2_finite s m e :
  py_round (S754_finite s m e) 2 =
  match round_half_even (Qabs (F2Q (S754_finite s m e)) * 100) with
  | Z.pos n => round_pos s (inject_Z (Z.pos n) / 100)
  | _ => S754_zero s
  end.
Proof. reflexivity. Qed.

Lemma F2Q_lit_1 : F2Q (lit 1.0) == 1.
Proof. vm_compute. reflexivity. Qed.

Lemma round_pos_1 : round_pos false 1 = lit 1.0.
Proof. vm_compute. reflexivity. Qed.

Lemma py_round_ge_one z :
  fle (lit 1.0) z = true -> fle (lit 1.0) (py_round z 2) = true.
Proof.
  intro H. destruct (fle_finite_l_inv (lit 1.0) z eq_refl H) as [Fz | ->]; [|reflexivity].
  apply fle_finite in H; [|reflexivity|exact Fz]. rewrite F2Q_lit_1 in H.
  destruct (finite_pos_shape z Fz ltac:(lra)) as (m & e & ->).
  rewrite py_round_2_finite.
  assert (Hn : (100 <= round_half_even (Qabs (F2Q (S754_finite false m e)) * 100))%Z).
  { rewrite <- (rhe_Z 100) at 1. apply rhe_mono. rewrite Qabs_pos by lra.
    change (inject_Z 100) with 100. lra. }
  destruct (round_half_even (Qabs (F2Q (S754_finite false m e)) * 100)) as [|n|n]; try lia.
  rewrite <- round_pos_1. apply round_pos_mono; [reflexivity|].
  apply Qle_shift_div_l; [reflexivity|]. rewrite Zle_Qle in Hn.
  change (inject_Z 100) with 100 in Hn. lra.
Qed.

Local Open Scope Z_scope.

Lemma py_round_2_spec x :
  is_finite x = true -> rounded_to_2_decimals x (py_round x 2).
Proof.
  destruct x as [s|s| |s m e]; try discriminate; intros _.
  - exists 0. split; [vm_compute; discriminate | reflexivity].
  - rewrite py_round_2_finite.
    pose proof (Qabs_F2Q_pos s m e) as Hpos.
    set (a := Qabs (F2Q (S754_finite s m e))) in *.
    pose proof (rhe_bounds (a * 100)%Q) as [B1 B2].
    assert (Hn : 0 <= round_half_even (a * 100)).
    { apply rhe_nonneg. lra. }
    assert (Ea : (F2Q (S754_finite s m e) == (if s then -1 else 1) * a)%Q).
    { unfold a. rewrite Qabs_F2Q. apply F2Q_sign. }
    exists (if s then - round_half_even (a * 100) else round_half_even (a * 100)).
    split.
    + apply Qabs_case; intro; destruct s; rewrite Ea; try rewrite inject_Z_opp; lra.
    + cbv beta iota delta [sign_bit].
      destruct (round_half_even (a * 100)) as [|n|n] eqn:En; try lia.
      * destruct s; reflexivity.
      * destruct s.
        -- unfold round_to_double.
           assert (C : ((inject_Z (- Z.pos n) / 100 ?= 0) = Lt)%Q) by reflexivity.
           rewrite C. apply round_pos_comp; [reflexivity|].
           rewrite inject_Z_opp. field.
        -- unfold round_to_double.
           assert (C : ((inject_Z (Z.pos n) / 100 ?= 0) = Gt)%Q) by reflexivity.
           rewrite C. reflexivity.
Qed.

Lemma py_int_finite z : is_finite z = true -> exists n, py_int z = Ok n.
Proof. destruct z; try discriminate; intros _; eexists; reflexivity. Qed.

Lemma py_int_nonneg z n :
  fle (S754_zero false) z = true -> py_int z = Ok n -> 0 <= n.
Proof.
  intros H Hn. destruct z as [s|s| |s m e]; try discriminate.
  - inversion Hn. lia.
  - destruct s.
    + exfalso. apply fle_finite in H; try reflexivity. pose proof (F2Q_neg m e) as Hneg.
      change (F2Q (S754_finite true m e)) with (inject_Z (Z.neg m) * pow2 e)%Q in H.
      change (F2Q (S754_zero false)) with 0%Q in H. lra.
    + unfold py_int in Hn.
      assert (Hq : Qfloor (Qabs (F2Q (S754_finite false m e))) = n) by congruence.
      rewrite <- Hq. change 0 with (Qfloor 0). apply Qfloor_resp_le. apply Qabs_nonneg.
Qed.

Lemma timestamp_ok t :
  fle (float_of_int 0) t = true -> fle t (float_of_int (2 ^ 63)) = true ->
  exists ns, py_int (fmul t (float_of_int 1000000000)) = Ok ns /\ 0 <= ns.
Proof.
  intros H1 H2.
  destruct (fle_between (float_of_int 0) t (float_of_int (2 ^ 63)) eq_refl eq_refl H1 H2)
    as (Ft & L1 & L2).
  assert (E9 : float_of_int 1000000000 = S754_finite false 8388608000000000 (-23))
    by (vm_compute; reflexivity).
  destruct t as [s|s| |s m e]; try discriminate Ft.
  - rewrite E9. exists 0. split; [reflexivity | lia].
  - assert (Z0 : (F2Q (float_of_int 0) == 0)%Q) by reflexivity.
    destruct s.
    { exfalso. pose proof (F2Q_neg m e) as Hn.
      change (F2Q (S754_finite true m e)) with (inject_Z (Z.neg m) * pow2 e)%Q in L1. lra. }
    assert (Hhi : fle (fmul (S754_finite false m e) (float_of_int 1000000000))
                      (fmul (float_of_int (2 ^ 63)) (float_of_int 1000000000)) = true).
    { pose proof (F2Q_pos m e) as Hp.
      apply fmul_mono_pos; try reflexivity; try assumption.
      apply Qle_refl. }
    assert (Hlo : fle (S754_zero false) (fmul (S754_finite false m e) (float_of_int 1000000000)) = true).
    { rewrite E9. cbv beta iota delta [fmul xorb]. apply round_pos_ge_zero.
      apply Qmult_lt_0_compat; apply Qabs_F2Q_pos. }
    destruct (fle_between (S754_zero false) _
             (fmul (float_of_int (2 ^ 63)) (float_of_int 1000000000))
             eq_refl eq_refl Hlo Hhi) as (Fz & _).
    destruct (py_int_finite _ Fz) as (ns & Hns).
    exists ns. split; [exact Hns|]. exact (py_int_nonneg _ _ Hlo Hns).
Qed.

(** The arithmetic above agrees with the standard library's specification of
    binary64 ([SFmul], [SFadd], [SFcompare]) on a sample that covers zeros,
    infinities, NaN, subnormals, overflow and ties. *)
Example arithmetic_agrees_with_SpecFloat :
  let same (a b : float) :=
    match a, b with
    | S754_zero s, S754_zero t | S754_infinity s, S754_infinity t => Bool.eqb s t
    | S754_nan, S754_nan => true
    | S754_finite s m e, S754_finite t n f =>
        Bool.eqb s t && Pos.eqb m n && Z.eqb e f
    | _, _ => false
    end in
  let same_cmp (c d : option comparison) :=
    match c, d with
    | Some Eq, Some Eq | Some Lt, Some Lt | Some Gt, Some Gt | None, None => true
    | _, _ => false
    end in
  let sample :=
    [S754_nan; S754_infinity false; S754_infinity true; S754_zero false;
     S754_zero true; lit 1.0; fneg (lit 0.3); lit 5e-324; lit 1.7e308;
     lit 0.999; lit 175.50; lit 2.2250738585072014e-308;
     lit 9007199254740993; lit 1e-200; lit 0.02] in
  forallb (fun a => forallb (fun b =>
     same (fmul a b) (SFmul 53 1024 a b) &&
     same (fadd a b) (SFadd 53 1024 a b) &&
     same_cmp (fcompare a b) (SFcompare a b)) sample) sample = true.
Proof. vm_compute. reflexivity. Qed.

(** [round] on ties and near-ties, as the interpreter answers. *)
Example py_round_examples :
  py_round (lit 0.125) 2 = lit 0.12 /\ py_round (lit 0.375) 2 = lit 0.38 /\
  py_round (lit 2.675) 2 = lit 2.67 /\ py_round (lit 175.4999) 2 = lit 175.5 /\
  py_round (fneg (lit 0.001)) 2 = S754_zero true /\
  py_round S754_nan 2 = S754_nan.
Proof. repeat split; vm_compute; reflexivity. Qed.


(** * The simulator *)

Lemma volume_range E st :
  env_ok E ->
  let bv := draw_base_volume E st in
  let w := draw_volume_factor E st in
  (1000000 <= bv <= 50000000) /\
  fle (lit 0.7) (fadd (float_of_int 1) w) = true /\
  fle (fadd (float_of_int 1) w) (lit 1.3) = true /\
  exists v, py_int (fmul (float_of_int bv) (fadd (float_of_int 1) w)) = Ok v /\
            700000 <= v <= 65000000.
Proof.
  intros HE bv w.
  assert (Hbv : 1000000 <= bv <= 50000000) by (apply (randint_range E HE); lia).
  destruct (uniform_range E HE (3 + draws st) (fneg (lit 0.3)) (lit 0.3) eq_refl) as [Hw1 Hw2].
  fold (draw_volume_factor E st) in Hw1, Hw2. fold w in Hw1, Hw2.
  destruct (fadd_one_between (fneg (lit 0.3)) (lit 0.3) w eq_refl eq_refl Hw1 Hw2) as [Hf1 Hf2].
  assert (E1 : fadd (float_of_int 1) (fneg (lit 0.3)) = lit 0.7) by (vm_compute; reflexivity).
  assert (E2 : fadd (float_of_int 1) (lit 0.3) = lit 1.3) by (vm_compute; reflexivity).
  rewrite E1 in Hf1. rewrite E2 in Hf2.
  split; [exact Hbv|]. split; [exact Hf1|]. split; [exact Hf2|].
  set (f := fadd (float_of_int 1) w) in *.
  destruct (fle_between (lit 0.7) f (lit 1.3) eq_refl eq_refl Hf1 Hf2) as (Ff & Lf1 & Lf2).
  assert (Ha1 : fle (float_of_int 1000000) (float_of_int bv) = true).
  { apply round_to_double_mono. rewrite <- Zle_Qle. lia. }
  assert (Ha2 : fle (float_of_int bv) (float_of_int 50000000) = true).
  { apply round_to_double_mono. rewrite <- Zle_Qle. lia. }
  destruct (fle_between (float_of_int 1000000) (float_of_int bv) (float_of_int 50000000) eq_refl eq_refl Ha1 Ha2) as (Fa & La1 & La2).
  assert (Q1 : (F2Q (float_of_int 1000000) == 1000000)%Q) by (vm_compute; reflexivity).
  assert (Q2 : (F2Q (lit 0.7) > 0)%Q) by (vm_compute; reflexivity).
  destruct (py_int_between (fmul (float_of_int bv) f)
              (fmul (float_of_int 1000000) (lit 0.7))
              (fmul (float_of_int 50000000) (lit 1.3))) as (v & Hv & Hr).
  - reflexivity.
  - reflexivity.
  - vm_compute. reflexivity.
  - apply fmul_mono_pos; try assumption; try reflexivity; try lra.
  - apply fmul_mono_pos; try assumption; try reflexivity; try lra.
  - exists v. split; [exact Hv|].
    assert (L : Qfloor (F2Q (fmul (float_of_int 1000000) (lit 0.7))) = 700000) by (vm_compute; reflexivity).
    assert (U : Qfloor (F2Q (fmul (float_of_int 50000000) (lit 1.3))) = 65000000) by (vm_compute; reflexivity).
    lia.
Qed.

Lemma generate_run symbol p vol E st :
  generate_price_update symbol p vol E st =
  match py_int (fmul (float_of_int (draw_base_volume E st))
                     (fadd (float_of_int 1) (draw_volume_factor E st))) with
  | Ok v =>
      (Ok {| symbol := symbol;
             price := py_round (pymax (fadd p (fmul (draw_gauss E st vol) p)) (lit 1.0)) 2;
             previous_close := py_round (fmul p (fadd (float_of_int 1) (draw_close E st))) 2;
             volume := v;
             timestamp := now_src E (clock_reads st) |},
       after_generate st)
  | Raise e =>
      (Raise e, {| draws := 4 + draws st; clock_reads := clock_reads st;
                   stdout := stdout st; posted := posted st; slept := slept st |})
  | Running =>
      (Running, {| draws := 4 + draws st; clock_reads := clock_reads st;
                   stdout := stdout st; posted := posted st; slept := slept st |})
  end.
Proof.
  unfold generate_price_update, bind, random_gauss, random_uniform, random_randint,
    lift, datetime_now_isoformat, ret, draw_base_volume, draw_volume_factor,
    draw_gauss, draw_close, after_generate.
  cbn -[lit float_of_int fmul fadd fneg pymax py_round py_int].
  destruct (py_int _); reflexivity.
Qed.

(** The environment [env0] honours the contracts. *)
Lemma env0_ok : env_ok env0.
Proof.
  constructor; cbn [env0 uniform_src randint_src sample_src time_src].
  - intros _ a b H. split; [|exact H]. apply fle_refl. apply (fle_not_nan _ _ H).
  - intros _ a b H. lia.
  - intros _ population k Hk. split; [|split].
    + rewrite length_firstn. lia.
    + intro Hn. rewrite <- (firstn_skipn (Z.to_nat k) population) in Hn.
      exact (NoDup_app_remove_r _ _ Hn).
    + intros x Hx. rewrite <- (firstn_skipn (Z.to_nat k) population).
      apply in_or_app. left. exact Hx.
  - intros _. split; vm_compute; reflexivity.
Qed.

(** The call of the simulator returns, whatever the base price. *)
Lemma generate_returns symbol p vol E st :
  env_ok E ->
  exists v,
    py_int (fmul (float_of_int (draw_base_volume E st))
                 (fadd (float_of_int 1) (draw_volume_factor E st))) = Ok v /\
    700000 <= v <= 65000000 /\
    generate_price_update symbol p vol E st =
    (Ok {| symbol := symbol;
           price := py_round (pymax (fadd p (fmul (draw_gauss E st vol) p)) (lit 1.0)) 2;
           previous_close := py_round (fmul p (fadd (float_of_int 1) (draw_close E st))) 2;
           volume := v;
           timestamp := now_src E (clock_reads st) |},
     after_generate st).
Proof.
  intro HE. destruct (volume_range E st HE) as (_ & _ & _ & v & Hv & Hr).
  exists v. split; [exact Hv|]. split; [exact Hr|].
  rewrite generate_run, Hv. reflexivity.
Qed.

(** A float above 0 is a positive finite double or plus infinity. *)
Lemma flt_zero_shape c :
  flt (float_of_int 0) c = true ->
  c = S754_infinity false \/ exists m e, c = S754_finite false m e.
Proof.
  assert (E0 : float_of_int 0 = S754_zero false) by (vm_compute; reflexivity).
  rewrite E0. destruct c as [s|s| |s m e]; try discriminate.
  - destruct s; [discriminate | auto].
  - destruct s; [|eauto]. intro H. exfalso.
    apply (flt_finite (S754_zero false) (S754_finite true m e) eq_refl eq_refl) in H.
    pose proof (F2Q_neg m e) as Hn.
    change (F2Q (S754_finite true m e)) with (inject_Z (Z.neg m) * pow2 e)%Q in H.
    change (F2Q (S754_zero false)) with 0%Q in H. lra.
Qed.





(** At a base price that is not a number the floor is lost: [max(nan, 1.0)]
    keeps its first argument, and the price is NaN. *)
Lemma price_floor_fails_on_nan :
  exists pd,
    generate_price_update "AAPL" S754_nan default_volatility env0 initial_state
      = (Ok pd, after_generate initial_state) /\
    price pd = S754_nan /\
    fle (lit 1.0) (price pd) = false.
Proof.
  eexists. split; [vm_compute; reflexivity|]. split; vm_compute; reflexivity.
Qed.

(** C9, amended.  The floor needs no sign condition, only numbers: whenever
    [base_price + perturbation] is not NaN -- as it is for every finite base
    price, negative, zero or positive, with every finite draw -- the price
    field of the returned observation is at least 1.0, the maximum with 1.0
    being taken before rounding; when that sum is NaN, the price is NaN. *)
Theorem generate_price_floor_any_sign symbol p vol E st :
  env_ok E ->
  exists pd,
    generate_price_update symbol p vol E st = (Ok pd, after_generate st) /\
    let sum := fadd p (fmul (draw_gauss E st vol) p) in
    price pd = py_round (pymax sum (lit 1.0)) 2 /\
    (is_finite p = true -> is_finite (draw_gauss E st vol) = true ->
     is_nan sum = false) /\
    (is_nan sum = false -> fle (lit 1.0) (price pd) = true) /\
    (is_nan sum = true -> price pd = S754_nan).
Proof.
  intro HE.
  destruct (generate_returns symbol p vol E st HE) as (v & _ & _ & Hrun).
  eexists. split; [exact Hrun|]. cbn [price]. split; [reflexivity|].
  split; [|split].
  - intros Hp Hg. apply fadd_finite_not_nan; [exact Hp|].
    apply fmul_finite_not_nan; assumption.
  - intro Hn. apply py_round_ge_one. apply pymax_ge; [exact Hn | reflexivity].
  - intro Hn. destruct (fadd p (fmul (draw_gauss E st vol) p)); try discriminate Hn.
    rewrite pymax_nan. reflexivity.
Qed.

Lemma generate_price_floor_any_sign_witness :
  env_ok env0 /\
  exists pd,
    generate_price_update "INTC" (fneg (lit 42.80)) default_volatility env0 initial_state
      = (Ok pd, after_generate initial_state) /\
    price pd = lit 1.0 /\ fle (lit 1.0) (price pd) = true.
Proof.
  split; [exact env0_ok|].
  destruct (generate_price_floor_any_sign "INTC" (fneg (lit 42.80)) default_volatility
              env0 initial_state env0_ok)
    as (pd & Hrun & Hp & Hfin & Hge & _).
  exists pd. split; [exact Hrun|]. split.
  - rewrite Hp. vm_compute. reflexivity.
  - apply Hge. apply Hfin; reflexivity.
Defined.



Lemma with_gauss_ok E g : env_ok E -> env_ok (with_gauss E g).
Proof. intros [H1 H2 H3 H4]. constructor; assumption. Qed.

(** C7. For every base price p and every draw u of
    [random.uniform(-0.05, 0.05)], the previous_close field is
    [p * (1 + u)] rounded to 2 decimals: when the product is a number, the
    field is the double of [n / 100] for an integer [n] nearest to a hundred
    times the product, and a product that is not a number is passed on as it
    is; the factor [1 + u] lies within [0.95, 1.05]; the draw is another one
    than the draw behind the price field: changing the source of normal
    draws leaves previous_close as it is. *)
Theorem generate_previous_close symbol p vol E st :
  env_ok E ->
  exists pd,
    generate_price_update symbol p vol E st = (Ok pd, after_generate st) /\
    let u := draw_close E st in
    let factor := fadd (float_of_int 1) u in
    fle (fneg (lit 0.05)) u = true /\ fle u (lit 0.05) = true /\
    fle (lit 0.95) factor = true /\ fle factor (lit 1.05) = true /\
    previous_close pd = py_round (fmul p factor) 2 /\
    (is_finite (fmul p factor) = true ->
     rounded_to_2_decimals (fmul p factor) (previous_close pd)) /\
    (is_finite (fmul p factor) = false -> previous_close pd = fmul p factor) /\
    forall g, exists pd',
      generate_price_update symbol p vol (with_gauss E g) st
        = (Ok pd', after_generate st) /\
      previous_close pd' = previous_close pd.
Proof.
  intro HE.
  destruct (generate_returns symbol p vol E st HE) as (v & _ & _ & Hrun).
  eexists. split; [exact Hrun|]. cbn [previous_close].
  destruct (uniform_range E HE (1 + draws st) (fneg (lit 0.05)) (lit 0.05) eq_refl)
    as [Hu1 Hu2].
  fold (draw_close E st) in Hu1, Hu2.
  destruct (fadd_one_between (fneg (lit 0.05)) (lit 0.05) _ eq_refl eq_refl Hu1 Hu2)
    as [Hf1 Hf2].
  assert (E1 : fadd (float_of_int 1) (fneg (lit 0.05)) = lit 0.95) by (vm_compute; reflexivity).
  assert (E2 : fadd (float_of_int 1) (lit 0.05) = lit 1.05) by (vm_compute; reflexivity).
  rewrite E1 in Hf1. rewrite E2 in Hf2.
  repeat (split; [assumption|]). split; [reflexivity|].
  split; [intro Hfin; apply py_round_2_spec; exact Hfin|].
  split.
  { intro Hinf.
    destruct (fmul p (fadd (float_of_int 1) (draw_close E st))) as [s|s| |s m e];
      try discriminate Hinf; reflexivity. }
  intro g.
  destruct (generate_returns symbol p vol (with_gauss E g) st (with_gauss_ok E g HE))
    as (v' & _ & _ & Hrun').
  eexists. split; [exact Hrun'|]. reflexivity.
Qed.

Lemma generate_previous_close_witness :
  env_ok env0 /\
  exists pd,
    generate_price_update "TSLA" (lit 250.30) default_volatility env0 initial_state
      = (Ok pd, after_generate initial_state) /\
    previous_close pd = py_round (fmul (lit 250.30) (lit 0.95)) 2 /\
    previous_close pd = lit 237.78 /\
    rounded_to_2_decimals (fmul (lit 250.30) (lit 0.95)) (previous_close pd).
Proof.
  split; [exact env0_ok|].
  destruct (generate_previous_close "TSLA" (lit 250.30) default_volatility
              env0 initial_state env0_ok)
    as (pd & Hrun & _ & _ & _ & _ & Hc & Hr & _).
  exists pd. split; [exact Hrun|].
  split; [rewrite Hc; vm_compute; reflexivity|].
  split; [rewrite Hc; vm_compute; reflexivity|].
  apply Hr. vm_compute. reflexivity.
Defined.

(** C8. For every observation the simulator produces, price and
    previous_close are their unrounded values passed through [round(., 2)];
    when the unrounded value is a number, the field is that value rounded to
    a nearest multiple of 0.01, read as a double. *)
Theorem generate_two_decimals symbol p vol E st :
  env_ok E ->
  exists pd,
    generate_price_update symbol p vol E st = (Ok pd, after_generate st) /\
    let new_price := pymax (fadd p (fmul (draw_gauss E st vol) p)) (lit 1.0) in
    let close := fmul p (fadd (float_of_int 1) (draw_close E st)) in
    price pd = py_round new_price 2 /\
    previous_close pd = py_round close 2 /\
    (is_finite new_price = true -> rounded_to_2_decimals new_price (price pd)) /\
    (is_finite close = true -> rounded_to_2_decimals close (previous_close pd)).
Proof.
  intro HE.
  destruct (generate_returns symbol p vol E st HE) as (v & _ & _ & Hrun).
  eexists. split; [exact Hrun|]. cbn [price previous_close].
  split; [reflexivity|]. split; [reflexivity|].
  split; intro H; apply py_round_2_spec; exact H.
Qed.

Lemma generate_two_decimals_witness :
  env_ok env0 /\
  exists pd,
    generate_price_update "NVDA" (lit 880.25) default_volatility env0 initial_state
      = (Ok pd, after_generate initial_state) /\
    price pd = lit 880.25 /\ previous_close pd = lit 836.24.
Proof.
  split; [exact env0_ok|].
  destruct (generate_two_decimals "NVDA" (lit 880.25) default_volatility
              env0 initial_state env0_ok) as (pd & Hrun & Hp & Hc & _).
  exists pd. split; [exact Hrun|].
  rewrite Hp, Hc. split; vm_compute; reflexivity.
Defined.

(** * The emitter *)

Lemma send_run http_url sid pd E st :
  env_ok E ->
  exists ns,
    py_int (fmul (time_src E (clock_reads st)) (float_of_int 1000000000)) = Ok ns /\
    0 <= ns /\
    let url := (http_url ++ "/sources/" ++ sid ++ "/events")%string in
    send_price_to_http_source http_url sid pd E st =
    (Ok tt,
     {| draws := draws st;
        clock_reads := 1 + clock_reads st;
        stdout := stdout st ++
                  [log_line E pd (http_src E (List.length (posted st)) url (envelope pd ns))];
        posted := posted st ++ [(url, envelope pd ns)];
        slept := slept st |}).
Proof.
  intro HE.
  destruct (time_range E HE (clock_reads st)) as [T1 T2].
  destruct (timestamp_ok _ T1 T2) as (ns & Hns & Hpos).
  exists ns. split; [exact Hns|]. split; [exact Hpos|].
  unfold send_price_to_http_source, bind, time_time, lift, try_except_Exception,
    requests_post, float_to_str, print, log_line, envelope.
  cbn -[lit float_of_int fmul fadd fneg pymax py_round py_int String.append int_str].
  rewrite Hns.
  cbn -[lit float_of_int fmul fadd fneg pymax py_round py_int String.append int_str].
  destruct (http_src E _ _ _) as [code body|d];
    cbn -[lit float_of_int fmul fadd fneg pymax py_round py_int String.append int_str].
  - destruct (code =? 200); reflexivity.
  - reflexivity.
Qed.

(** C3. For every observation passed to the emitter, the envelope has
    operation "update", element type "node", element id "price_" followed by
    the symbol, labels ["stock_prices"], the observation itself as
    properties, and as timestamp the clock's seconds since the epoch times
    10^9, truncated: nanoseconds.  The envelope is posted, once, to
    [<url>/sources/<source_id>/events]. *)
Theorem send_builds_envelope http_url sid pd E st :
  env_ok E ->
  exists ev st',
    send_price_to_http_source http_url sid pd E st = (Ok tt, st') /\
    posted st' = (posted st ++ [((http_url ++ "/sources/" ++ sid ++ "/events")%string, ev)])%list /\
    Event.operation ev = "update"%string /\
    Element.type (Event.element ev) = "node"%string /\
    Element.id (Event.element ev) = ("price_" ++ symbol pd)%string /\
    Element.labels (Event.element ev) = ["stock_prices"%string] /\
    Element.properties (Event.element ev) = pd /\
    py_int (fmul (time_src E (clock_reads st)) (float_of_int 1000000000))
      = Ok (Event.timestamp ev) /\
    0 <= Event.timestamp ev.
Proof.
  intro HE. destruct (send_run http_url sid pd E st HE) as (ns & Hns & Hpos & Hrun).
  exists (envelope pd ns). eexists. split; [exact Hrun|].
  cbn [posted envelope Event.operation Event.element Event.timestamp
       Element.type Element.id Element.labels Element.properties].
  repeat (split; [reflexivity|]). split; assumption.
Qed.

Lemma send_builds_envelope_witness :
  env_ok env0 /\
  exists ev st',
    send_price_to_http_source "http://localhost:9000" "price-feed"
      {| symbol := "AAPL"; price := lit 175.50; previous_close := lit 170.00;
         volume := 1000000; timestamp := "2025-01-01T00:00:00" |}
      env0 initial_state = (Ok tt, st') /\
    posted st' = [("http://localhost:9000/sources/price-feed/events"%string, ev)] /\
    Element.id (Event.element ev) = "price_AAPL"%string /\
    Event.timestamp ev = 1700000000500000000.
Proof.
  split; [exact env0_ok|].
  destruct (send_builds_envelope "http://localhost:9000" "price-feed"
      {| symbol := "AAPL"; price := lit 175.50; previous_close := lit 170.00;
         volume := 1000000; timestamp := "2025-01-01T00:00:00" |}
      env0 initial_state env0_ok)
    as (ev & st' & Hrun & Hp & _ & _ & Hid & _ & _ & Hts & _).
  exists ev, st'. split; [exact Hrun|]. split; [exact Hp|]. split; [exact Hid|].
  assert (H : Ok (Event.timestamp ev) = Ok 1700000000500000000)
    by (rewrite <- Hts; vm_compute; reflexivity).
  congruence.
Defined.



(** * The driver *)

Lemma bind_ok {A B} (m : M A) (k : A -> M B) E st a st' :
  m E st = (Ok a, st') -> bind m k E st = k a E st'.
Proof. intro H. unfold bind. rewrite H. reflexivity. Qed.

(** Simulating and sending one observation: a call of the simulator, then a
    call of the emitter. *)
Lemma generate_and_send sym base E st :
  env_ok E ->
  exists pd ns st',
    generate_price_update sym base default_volatility E st = (Ok pd, after_generate st) /\
    symbol pd = sym /\
    price pd = py_round (pymax (fadd base (fmul (draw_gauss E st default_volatility) base))
                               (lit 1.0)) 2 /\
    send_price_to_http_source http_source_url source_id pd E (after_generate st) = (Ok tt, st') /\
    posted st' = (posted st ++ [(events_url, envelope pd ns)])%list /\
    slept st' = slept st /\ draws st' = (4 + draws st)%nat.
Proof.
  intro HE.
  destruct (generate_returns sym base default_volatility E st HE) as (v & _ & _ & Hgen).
  destruct (send_run http_source_url source_id
              {| symbol := sym;
                 price := py_round (pymax (fadd base (fmul (draw_gauss E st default_volatility) base)) (lit 1.0)) 2;
                 previous_close := py_round (fmul base (fadd (float_of_int 1) (draw_close E st))) 2;
                 volume := v; timestamp := now_src E (clock_reads st) |}
              E (after_generate st) HE) as (ns & _ & _ & Hsend).
  eexists. exists ns. eexists. split; [exact Hgen|].
  split; [reflexivity|]. split; [reflexivity|]. split; [exact Hsend|].
  cbn [posted slept draws after_generate]. auto.
Qed.

(** One iteration of phase 1. *)
Lemma initial_price_run sym base E st :
  env_ok E ->
  interrupt_src E (List.length (slept st)) = false ->
  exists post st',
    (price_data <- generate_price_update sym base default_volatility ;;
     send_price_to_http_source http_source_url source_id price_data ;;;
     time_sleep (lit 0.1))%monad E st = (Ok tt, st') /\
    emits E sym base post /\
    posted st' = (posted st ++ [post])%list /\
    slept st' = (slept st ++ [lit 0.1])%list.
Proof.
  intros HE Hint.
  destruct (generate_and_send sym base E st HE)
    as (pd & ns & st1 & Hgen & Hsym & _ & Hsend & Hposted & Hslept & _).
  exists (events_url, envelope pd ns). eexists. split.
  - rewrite (bind_ok _ _ _ _ _ _ Hgen). rewrite (bind_ok _ _ _ _ _ _ Hsend).
    unfold time_sleep.
    destruct (interrupt_src E (List.length (slept st1))) eqn:Hi;
      [rewrite Hslept in Hi; congruence | reflexivity].
  - split; [exists st, pd, ns; auto|].
    cbn [posted slept]. rewrite Hposted, Hslept. auto.
Qed.

Lemma send_initial_prices_run E tbl :
  env_ok E ->
  forall st,
    (forall i, (i < List.length tbl)%nat ->
               interrupt_src E (List.length (slept st) + i) = false) ->
    exists posts st',
      send_initial_prices tbl E st = (Ok tt, st') /\
      posted st' = (posted st ++ posts)%list /\
      Forall2 (fun item post => emits E (fst item) (snd item) post) tbl posts.
Proof.
  intro HE. induction tbl as [|[sym base] tbl IH]; intros st Hint.
  - exists [], st. split; [reflexivity|]. split; [symmetry; apply app_nil_r | constructor].
  - destruct (initial_price_run sym base E st HE) as (post & st1 & Hrun & Hem & Hp & Hs).
    { rewrite <- (Nat.add_0_r (List.length (slept st))). apply Hint. cbn. lia. }
    destruct (IH st1) as (posts & st' & Hrest & Hp' & Hall).
    { intros i Hi. rewrite Hs, length_app. cbn [List.length].
      replace (List.length (slept st) + 1 + i)%nat with (List.length (slept st) + S i)%nat by lia.
      apply Hint. cbn. lia. }
    exists (post :: posts), st'. split; [|split].
    + unfold send_initial_prices. cbn [for_each].
      rewrite (bind_ok _ _ _ _ _ _ Hrun). exact Hrest.
    + rewrite Hp', Hp, <- app_assoc. reflexivity.
    + constructor; assumption.
Qed.

Lemma emits_id E sym base post :
  emits E sym base post ->
  fst post = events_url /\
  Element.id (Event.element (snd post)) = ("price_" ++ sym)%string.
Proof. intros (st & pd & ns & _ & Hsym & ->). cbn. rewrite Hsym. auto. Qed.

Lemma Forall2_emits_ids E (tbl : table) posts :
  Forall2 (fun item post => emits E (fst item) (snd item) post) tbl posts ->
  map (fun post => Element.id (Event.element (snd post))) posts
  = map (fun item => ("price_" ++ fst item)%string) tbl /\
  map fst posts = map (fun _ => events_url) tbl.
Proof.
  induction 1 as [|item post tbl posts H _ IH]; [auto|].
  destruct IH as [IH1 IH2]. destruct (emits_id _ _ _ _ H) as [H1 H2].
  cbn [map]. rewrite IH1, IH2, H1, H2. auto.
Qed.

(** C5. Phase 1 issues exactly 24 requests, one per seeded symbol, in the
    order of the table; each carries an observation the simulator returned
    for that symbol at its seeded base price. *)
Theorem phase1_posts_each_symbol_once E st :
  env_ok E ->
  (forall i, (i < 24)%nat -> interrupt_src E (List.length (slept st) + i) = false) ->
  exists posts st',
    send_initial_prices stocks E st = (Ok tt, st') /\
    posted st' = (posted st ++ posts)%list /\
    List.length posts = 24%nat /\
    map fst posts = repeat events_url 24 /\
    map (fun post => Element.id (Event.element (snd post))) posts
    = map (fun item => ("price_" ++ fst item)%string) stocks /\
    Forall2 (fun item post => emits E (fst item) (snd item) post) stocks posts.
Proof.
  intros HE Hint.
  destruct (send_initial_prices_run E stocks HE st Hint) as (posts & st' & Hrun & Hp & Hall).
  exists posts, st'. split; [exact Hrun|]. split; [exact Hp|].
  destruct (Forall2_emits_ids _ _ _ Hall) as [Hids Hurls].
  split; [|split; [|split]]; try assumption.
  rewrite <- (Forall2_length Hall). reflexivity.
Qed.

Lemma phase1_posts_each_symbol_once_witness :
  env_ok env0 /\
  (forall i, (i < 24)%nat ->
             interrupt_src env0 (List.length (slept initial_state) + i) = false) /\
  exists posts st',
    send_initial_prices stocks env0 initial_state = (Ok tt, st') /\
    posted st' = posts /\ List.length posts = 24%nat.
Proof.
  assert (Hint : forall i, (i < 24)%nat ->
             interrupt_src env0 (List.length (slept initial_state) + i) = false).
  { intros i Hi. cbn. apply Nat.eqb_neq. lia. }
  split; [exact env0_ok|]. split; [exact Hint|].
  destruct (phase1_posts_each_symbol_once env0 initial_state env0_ok Hint)
    as (posts & st' & Hrun & Hp & Hlen & _).
  exists posts, st'. auto.
Defined.

Lemma getitem_in (tbl : table) sym :
  In sym (keys tbl) -> exists c, getitem tbl sym = Ok c.
Proof.
  induction tbl as [|[k v] tbl IH]; cbn; [contradiction|].
  intros [->|H].
  - rewrite String.eqb_refl. eauto.
  - destruct (String.eqb k sym); eauto.
Qed.

Lemma getitem_ok_in (tbl : table) sym c :
  getitem tbl sym = Ok c -> In (sym, c) tbl.
Proof.
  induction tbl as [|[k v] tbl IH]; cbn; [discriminate|].
  destruct (String.eqb_spec k sym) as [->|Hne].
  - intro H. inversion H. auto.
  - auto.
Qed.

Lemma getitem_setitem (tbl : table) sym v :
  getitem (setitem tbl sym v) sym = Ok v.
Proof.
  induction tbl as [|[k w] tbl IH]; cbn.
  - rewrite String.eqb_refl. reflexivity.
  - destruct (String.eqb k sym) eqn:Ek; cbn; rewrite Ek; [reflexivity | exact IH].
Qed.

Lemma keys_setitem (tbl : table) sym v :
  In sym (keys tbl) -> keys (setitem tbl sym v) = keys tbl.
Proof.
  induction tbl as [|[k w] tbl IH]; cbn; [contradiction|].
  destruct (String.eqb_spec k sym) as [->|Hne]; [reflexivity|].
  intros [H|H]; [contradiction|]. cbn. f_equal. apply IH. exact H.
Qed.

(** The values of the table after [d[k] = v]: the new value or an old one. *)
Lemma in_setitem (tbl : table) sym v item :
  In item (setitem tbl sym v) -> snd item = v \/ In item tbl.
Proof.
  induction tbl as [|[k w] tbl IH]; cbn.
  - intros [<-|[]]. auto.
  - destruct (String.eqb k sym); cbn.
    + intros [<-|H]; auto.
    + intros [<-|H]; auto. destruct (IH H); auto.
Qed.

Lemma drift_range E n :
  env_ok E ->
  let f := uniform_src E n (fneg (lit 0.001)) (lit 0.001) in
  fle (fneg (lit 0.001)) f = true /\ fle f (lit 0.001) = true /\
  fle (lit 0.999) (fadd (float_of_int 1) f) = true /\
  fle (fadd (float_of_int 1) f) (lit 1.001) = true.
Proof.
  intros HE f.
  destruct (uniform_range E HE n (fneg (lit 0.001)) (lit 0.001) eq_refl) as [H1 H2].
  fold f in H1, H2.
  destruct (fadd_one_between (fneg (lit 0.001)) (lit 0.001) f eq_refl eq_refl H1 H2)
    as [Hf1 Hf2].
  assert (E1 : fadd (float_of_int 1) (fneg (lit 0.001)) = lit 0.999) by (vm_compute; reflexivity).
  assert (E2 : fadd (float_of_int 1) (lit 0.001) = lit 1.001) by (vm_compute; reflexivity).
  rewrite E1 in Hf1. rewrite E2 in Hf2. auto.
Qed.

Lemma update_symbol_run tbl sym E st :
  env_ok E -> In sym (keys tbl) ->
  exists tbl' st',
    update_symbol tbl sym E st = (Ok tbl', st') /\
    update_step E sym tbl st tbl' st' /\
    keys tbl' = keys tbl /\ slept st' = slept st /\ draws st' = (5 + draws st)%nat.
Proof.
  intros HE Hin.
  destruct (getitem_in tbl sym Hin) as (c & Hc).
  set (f := uniform_src E (draws st) (fneg (lit 0.001)) (lit 0.001)).
  set (updated := fmul c (fadd (float_of_int 1) f)).
  destruct (drift_range E (draws st) HE) as (Hf1 & Hf2 & _). fold f in Hf1, Hf2.
  destruct (generate_and_send sym updated E (next_draw st) HE)
    as (pd & ns & st' & Hgen & _ & _ & Hsend & Hposted & Hslept & Hdraws).
  exists (setitem tbl sym updated), st'. split; [|split; [|split; [|split]]].
  - unfold update_symbol. unfold bind at 1. unfold lift at 1. rewrite Hc.
    unfold bind at 1. unfold random_uniform at 1. fold f. fold updated.
    unfold bind at 1. unfold lift at 1. rewrite getitem_setitem.
    rewrite (bind_ok _ _ _ _ _ _ Hgen). rewrite (bind_ok _ _ _ _ _ _ Hsend).
    reflexivity.
  - exists c, pd, (after_generate (next_draw st)), ns. cbv zeta. fold f. fold updated.
    repeat (split; [first [assumption | reflexivity | apply getitem_setitem]|]).
    exact Hposted.
  - apply keys_setitem. exact Hin.
  - exact Hslept.
  - rewrite Hdraws. reflexivity.
Qed.


Lemma NoDup_keys_stocks : NoDup (keys stocks).
Proof.
  unfold keys, stocks. cbn [map fst].
  repeat (constructor; [cbn; intuition discriminate|]). constructor.
Qed.



(** * The invariant of the symbol table *)

Lemma bounded_exp m e : bounded 53 1024 m e = true -> (-1074 <= e)%Z.
Proof.
  unfold bounded, canonical_mantissa, fexp, SpecFloat.emin. intro H.
  apply andb_true_iff in H. destruct H as [H _]. apply Z.eqb_eq in H. lia.
Qed.

Lemma valid_finite_ge_min m e :
  bounded 53 1024 m e = true -> (pow2 (-1074) <= inject_Z (Z.pos m) * pow2 e)%Q.
Proof.
  intro H. apply bounded_exp in H.
  apply Qle_trans with (1 * pow2 e)%Q.
  - rewrite Qmult_1_l. apply pow2_le. exact H.
  - apply Qmult_le_compat_r; [|apply Qlt_le_weak, pow2_pos].
    change 1%Q with (inject_Z 1). rewrite <- Zle_Qle. lia.
Qed.

(** A positive double times a factor within [0.999, 1.001] is a positive
    double. *)
Lemma positive_price_drift c factor :
  positive_price c ->
  fle (lit 0.999) factor = true -> fle factor (lit 1.001) = true ->
  positive_price (fmul c factor).
Proof.
  intros [Hv Hpos] Hf1 Hf2.
  destruct (fle_between (lit 0.999) factor (lit 1.001) eq_refl eq_refl Hf1 Hf2)
    as (Ff & L1 & L2).
  assert (Q999 : (0 < F2Q (lit 0.999))%Q) by (vm_compute; reflexivity).
  destruct (finite_pos_shape factor Ff ltac:(lra)) as (mf & ef & ->).
  destruct (flt_zero_shape c Hpos) as [-> | (m & e & ->)].
  - split; reflexivity.
  - cbv beta iota delta [fmul xorb].
    set (x := (Qabs (F2Q (S754_finite false m e)) * Qabs (F2Q (S754_finite false mf ef)))%Q).
    assert (Hlow : (pow2 (-1074) * F2Q (lit 0.999) <= x)%Q).
    { unfold x. rewrite !Qabs_F2Q.
      assert (Ef : (F2Q (S754_finite false mf ef) == inject_Z (Z.pos mf) * pow2 ef)%Q)
        by reflexivity.
      rewrite Ef in L1.
      apply Qmult_le_compat_nonneg.
      - split; [apply Qlt_le_weak, pow2_pos | apply valid_finite_ge_min; exact Hv].
      - split; [lra | exact L1]. }
    assert (Hx : (0 < x)%Q).
    { eapply Qlt_le_trans; [|exact Hlow]. apply Qmult_lt_0_compat; [apply pow2_pos | exact Q999]. }
    split; [apply round_pos_valid; exact Hx|].
    assert (Hmin : fle (S754_finite false 1 (-1074)) (round_pos false x) = true).
    { assert (Em : round_pos false (pow2 (-1074) * F2Q (lit 0.999)) = S754_finite false 1 (-1074))
        by (vm_compute; reflexivity).
      rewrite <- Em. apply round_pos_mono; [|exact Hlow].
      apply Qmult_lt_0_compat; [apply pow2_pos | exact Q999]. }
    destruct (fle_finite_l_inv (S754_finite false 1 (-1074)) _ eq_refl Hmin)
      as [Fz | ->]; [|reflexivity].
    assert (E0 : float_of_int 0 = S754_zero false) by (vm_compute; reflexivity).
    rewrite E0. apply flt_finite; [reflexivity | exact Fz|].
    apply fle_finite in Hmin; [|reflexivity|exact Fz].
    pose proof (F2Q_pos 1 (-1074)) as Hp.
    change (F2Q (S754_finite false 1 (-1074))) with (inject_Z 1 * pow2 (-1074))%Q in Hmin.
    change (F2Q (S754_zero false)) with 0%Q. lra.
Qed.

Lemma stocks_inv : table_inv stocks.
Proof.
  split; [reflexivity|].
  unfold stocks. repeat (constructor; [split; vm_compute; reflexivity|]). constructor.
Qed.

Lemma bind_ok_inv {A B} (m : M A) (k : A -> M B) E st b st' :
  bind m k E st = (Ok b, st') ->
  exists a st1, m E st = (Ok a, st1) /\ k a E st1 = (Ok b, st').
Proof.
  unfold bind. destruct (m E st) as [[a|e|] st1]; try discriminate. eauto.
Qed.

(** What a pass of the inner loop does to the table when it returns. *)
Lemma update_symbol_inv tbl sym E st tbl' st' :
  env_ok E ->
  update_symbol tbl sym E st = (Ok tbl', st') ->
  exists c factor,
    getitem tbl sym = Ok c /\
    fle (lit 0.999) factor = true /\ fle factor (lit 1.001) = true /\
    tbl' = setitem tbl sym (fmul c factor) /\
    keys tbl' = keys tbl.
Proof.
  intros HE Hrun.
  assert (Hin : In sym (keys tbl)).
  { unfold update_symbol in Hrun. apply bind_ok_inv in Hrun.
    destruct Hrun as (c & st1 & Hc & _). unfold lift in Hc. inversion Hc as [[Hg Hst]].
    apply getitem_ok_in in Hg. apply (in_map fst) in Hg. exact Hg. }
  destruct (update_symbol_run tbl sym E st HE Hin)
    as (tbl1 & st1 & Hrun1 & (c & pd & st2 & ns & Hstep) & Hk & _).
  cbv zeta in Hstep. destruct Hstep as (Hc & _ & _ & Htbl & _).
  assert (Et : tbl' = tbl1) by congruence. rewrite Et.
  destruct (drift_range E (draws st) HE) as (_ & _ & Hf1 & Hf2).
  exists c. eexists. split; [exact Hc|]. split; [exact Hf1|]. split; [exact Hf2|].
  split; [exact Htbl | exact Hk].
Qed.

Lemma update_symbol_preserves_inv tbl sym E st tbl' st' :
  env_ok E -> table_inv tbl ->
  update_symbol tbl sym E st = (Ok tbl', st') -> table_inv tbl'.
Proof.
  intros HE [Hk Hall] Hrun.
  destruct (update_symbol_inv _ _ _ _ _ _ HE Hrun) as (c & factor & Hc & Hf1 & Hf2 & -> & Hk').
  split; [congruence|].
  rewrite Forall_forall in *. intros item Hitem.
  destruct (in_setitem _ _ _ _ Hitem) as [-> | Hold]; [|apply Hall; exact Hold].
  apply positive_price_drift; try assumption.
  apply (Hall (sym, c)). apply getitem_ok_in. exact Hc.
Qed.

Lemma for_fold_reachable E syms :
  forall tbl st tbl' st',
    reachable E tbl ->
    for_fold syms update_symbol tbl E st = (Ok tbl', st') ->
    reachable E tbl'.
Proof.
  induction syms as [|sym syms IH]; intros tbl st tbl' st' Hr Hrun.
  - cbn in Hrun. unfold ret in Hrun. inversion Hrun; subst. exact Hr.
  - cbn [for_fold] in Hrun. apply bind_ok_inv in Hrun.
    destruct Hrun as (tbl1 & st1 & Hstep & Hrest).
    apply (IH tbl1 st1 tbl' st'); [|exact Hrest].
    eapply reachable_update; eassumption.
Qed.

Lemma update_cycle_reachable E tbl st tbl' st' :
  reachable E tbl -> update_cycle tbl E st = (Ok tbl', st') -> reachable E tbl'.
Proof.
  intros Hr Hrun. unfold update_cycle in Hrun.
  apply bind_ok_inv in Hrun. destruct Hrun as (k & st1 & _ & Hrun).
  apply bind_ok_inv in Hrun. destruct Hrun as (syms & st2 & _ & Hrun).
  apply bind_ok_inv in Hrun. destruct Hrun as (tbl1 & st3 & Hfold & Hrun).
  apply bind_ok_inv in Hrun. destruct Hrun as (d & st4 & _ & Hrun).
  apply bind_ok_inv in Hrun. destruct Hrun as (u & st5 & _ & Hrun).
  unfold ret in Hrun. inversion Hrun; subst.
  eapply for_fold_reachable; eassumption.
Qed.

(** C10. The table always maps exactly the 24 seeded tickers, in their
    order, and every stored price is a positive double: this holds of the
    seeded table and of every table obtained from it by passes of the inner
    loop of phase 2, the only writes.  Each such pass multiplies one stored
    price by a factor within [0.999, 1.001], keeps the keys, and keeps the
    invariant; a whole cycle leads from a reachable table to a reachable
    table. *)
Theorem table_invariant E :
  env_ok E ->
  (forall tbl, reachable E tbl ->
     keys tbl = keys stocks /\ List.length tbl = 24%nat /\
     Forall (fun item => positive_price (snd item)) tbl) /\
  (forall tbl sym st tbl' st',
     reachable E tbl ->
     update_symbol tbl sym E st = (Ok tbl', st') ->
     exists c factor,
       getitem tbl sym = Ok c /\
       fle (lit 0.999) factor = true /\ fle factor (lit 1.001) = true /\
       tbl' = setitem tbl sym (fmul c factor) /\
       keys tbl' = keys tbl /\ table_inv tbl') /\
  (forall tbl st tbl' st',
     reachable E tbl -> update_cycle tbl E st = (Ok tbl', st') ->
     reachable E tbl').
Proof.
  intro HE.
  assert (Hinv : forall tbl, reachable E tbl -> table_inv tbl).
  { induction 1 as [|tbl sym st tbl' st' _ IH Hrun].
    - exact stocks_inv.
    - eapply update_symbol_preserves_inv; eassumption. }
  split; [|split].
  - intros tbl Hr. destruct (Hinv tbl Hr) as [Hk Hall].
    split; [exact Hk|]. split; [|exact Hall].
    rewrite <- (length_map fst tbl). fold (keys tbl). rewrite Hk. reflexivity.
  - intros tbl sym st tbl' st' Hr Hrun.
    destruct (update_symbol_inv _ _ _ _ _ _ HE Hrun) as (c & factor & Hc & Hf1 & Hf2 & Ht & Hk).
    exists c, factor. repeat (split; [assumption|]).
    eapply update_symbol_preserves_inv; [exact HE | exact (Hinv tbl Hr) | exact Hrun].
  - intros tbl st tbl' st'. apply update_cycle_reachable.
Qed.

Lemma table_invariant_witness :
  env_ok env0 /\
  exists tbl' st',
    update_cycle stocks env0 initial_state = (Ok tbl', st') /\
    keys tbl' = keys stocks /\ List.length tbl' = 24%nat /\
    Forall (fun item => positive_price (snd item)) tbl'.
Proof.
  split; [exact env0_ok|].
  destruct (table_invariant env0 env0_ok) as (Hinv & _ & Hcycle).
  destruct (update_cycle stocks env0 initial_state) as [r st'] eqn:Hrun.
  assert (Hr : exists tbl', r = Ok tbl').
  { assert (H : fst (update_cycle stocks env0 initial_state) = r) by (rewrite Hrun; reflexivity).
    rewrite <- H. vm_compute. eexists. reflexivity. }
  destruct Hr as (tbl' & ->).
  exists tbl', st'. split; [reflexivity|].
  apply Hinv. eapply Hcycle; [apply reachable_seed | exact Hrun].
Defined.

(** A run of the whole program in [env0]: phase 1, then cycles of three
    updates until Ctrl+C arrives in the second sleep of phase 2; the handler
    prints the last line and [main] returns. *)
Example main_env0 :
  let '(r, st) := main 5 env0 initial_state in
  r = Ok tt /\ List.length (posted st) = 30%nat /\ List.length (slept st) = 26%nat /\
  last (stdout st) ""%string = "Price generator stopped"%string.
Proof. vm_compute. repeat split. Qed.

(** * Further properties *)

(** * The floor of the price, for base prices that are not positive *)

Local Open Scope Q_scope.

(** A double is a point of its own grid: rounding leaves its value. *)
Lemma rv_grid m e :
  bounded 53 1024 m e = true ->
  rv (inject_Z (Z.pos m) * pow2 e) == inject_Z (Z.pos m) * pow2 e.
Proof.
  intro Hb. unfold bounded, canonical_mantissa, fexp, SpecFloat.emin in Hb.
  apply andb_true_iff in Hb. destruct Hb as [Hc _]. apply Z.eqb_eq in Hc.
  rewrite digits2_pos_log2 in Hc.
  set (x := inject_Z (Z.pos m) * pow2 e).
  destruct (Zlog2_bounds (Z.pos m) ltac:(lia)) as [L1 L2].
  assert (Hmag : mag x = (Z.log2 (Z.pos m) + e)%Z).
  { apply mag_unique; unfold x.
    - rewrite pow2_add. apply Qmult_le_compat_r; [exact L2 | apply Qlt_le_weak, pow2_pos].
    - replace (Z.log2 (Z.pos m) + e + 1)%Z with ((Z.log2 (Z.pos m) + 1) + e)%Z by ring.
      rewrite pow2_add. apply Qmult_lt_compat_r; [apply pow2_pos | exact L1]. }
  assert (Hg : grid_exp x = e) by (unfold grid_exp; rewrite Hmag; lia).
  unfold rv. rewrite Hg.
  rewrite (rhe_comp (x / pow2 e) (inject_Z (Z.pos m))).
  - rewrite rhe_Z. reflexivity.
  - unfold x. pose proof (pow2_pos e). field. lra.
Qed.

Lemma bounded_lt_max m e :
  bounded 53 1024 m e = true -> inject_Z (Z.pos m) * pow2 e < pow2 1024.
Proof.
  intro Hb. unfold bounded, canonical_mantissa, fexp, SpecFloat.emin in Hb.
  apply andb_true_iff in Hb. destruct Hb as [Hc He].
  apply Z.eqb_eq in Hc. apply Z.leb_le in He. rewrite digits2_pos_log2 in Hc.
  destruct (Zlog2_bounds (Z.pos m) ltac:(lia)) as [L1 _].
  apply Qlt_le_trans with (pow2 (Z.log2 (Z.pos m) + 1) * pow2 e).
  - apply Qmult_lt_compat_r; [apply pow2_pos | exact L1].
  - rewrite <- pow2_add. apply pow2_le. lia.
Qed.

(** Rounding a positive number that is at most a double gives at most that
    double. *)
Lemma round_pos_below_double x m e :
  bounded 53 1024 m e = true ->
  0 < x -> x <= inject_Z (Z.pos m) * pow2 e ->
  is_finite (round_pos false x) = true /\
  F2Q (round_pos false x) <= inject_Z (Z.pos m) * pow2 e.
Proof.
  intros Hb Hx Hle.
  pose proof (rv_mono _ _ Hx Hle) as Hrv. rewrite (rv_grid m e Hb) in Hrv.
  pose proof (bounded_lt_max m e Hb) as Hmax.
  pose proof (F2Q_pos m e) as Hp.
  pose proof (round_pos_spec false x Hx) as S.
  destruct (round_pos false x) as [s|s| |s m' e']; try contradiction.
  - split; [reflexivity|]. simpl. lra.
  - exfalso. destruct S as [_ S]. lra.
  - destruct S as (-> & S & _). split; [reflexivity|]. simpl. lra.
Qed.

(** What is at most a zero is below 1.0. *)
Lemma fle_zero_lt_one z sz :
  fle z (S754_zero sz) = true -> flt z (lit 1.0) = true.
Proof.
  intro H. destruct (fle_finite_r_inv z (S754_zero sz) eq_refl H) as [Fz | ->];
    [|reflexivity].
  apply fle_finite in H; [|exact Fz|reflexivity].
  apply flt_finite; [exact Fz|reflexivity|]. rewrite F2Q_lit_1. simpl in H. lra.
Qed.

(** [p + g * p] for a double [p <= 0] and a finite [g >= -1] is at most
    zero. *)
Lemma nonpositive_sum p g :
  valid_binary 53 1024 p = true -> is_finite p = true ->
  fle p (float_of_int 0) = true ->
  is_finite g = true -> fle (fneg (float_of_int 1)) g = true ->
  fle (fadd p (fmul g p)) (S754_zero false) = true.
Proof.
  intros Hv Fp Hp Fg Hg.
  assert (E0 : float_of_int 0 = S754_zero false) by (vm_compute; reflexivity).
  assert (E1 : fneg (float_of_int 1) = S754_finite true 4503599627370496 (-52))
    by (vm_compute; reflexivity).
  rewrite E0 in Hp. rewrite E1 in Hg.
  destruct p as [sp|sp| |sp mp ep]; try discriminate Fp.
  - destruct g as [sg|sg| |sg mg eg]; try discriminate Fg;
      cbv beta iota delta [fmul fadd]; destruct (Bool.eqb sp (xorb sg sp)); reflexivity.
  - assert (Hneg : sp = true).
    { destruct sp; [reflexivity|]. exfalso.
      apply fle_finite in Hp; [|reflexivity|reflexivity].
      pose proof (F2Q_pos mp ep). simpl in Hp. lra. }
    subst sp. cbn [valid_binary] in Hv.
    destruct g as [sg|sg| |sg mg eg]; try discriminate Fg.
    + cbv beta iota delta [fmul fadd]. exact Hp.
    + cbv beta iota delta [fmul].
      set (x := Qabs (F2Q (S754_finite sg mg eg)) * Qabs (F2Q (S754_finite true mp ep))).
      assert (Hx : 0 < x) by (apply Qmult_lt_0_compat; apply Qabs_F2Q_pos).
      pose proof (F2Q_neg mp ep) as Hpn.
      destruct sg; cbn [xorb].
      * (* g < 0, so |g| <= 1 and the product is at most |p| *)
        apply fle_finite in Hg; [|reflexivity|reflexivity].
        assert (Hg1 : Qabs (F2Q (S754_finite true mg eg)) <= 1).
        { rewrite Qabs_neg by (apply Qlt_le_weak, F2Q_neg).
          assert (F2Q (S754_finite true 4503599627370496 (-52)) == -1)
            by (vm_compute; reflexivity).
          lra. }
        assert (Hle : x <= inject_Z (Z.pos mp) * pow2 ep).
        { unfold x. rewrite (Qabs_F2Q true mp ep).
          pose proof (F2Q_pos mp ep). pose proof (Qabs_F2Q_pos true mg eg). nra. }
        destruct (round_pos_below_double x mp ep Hv Hx Hle) as [Fr Hr].
        destruct (round_pos false x) as [s|s| |s m' e'] eqn:Er; try discriminate Fr.
        -- cbv beta iota delta [fadd]. exact Hp.
        -- cbv beta iota delta [fadd].
           change (S754_zero false) with (round_to_double false 0).
           apply round_to_double_mono.
           assert (F2Q (S754_finite true mp ep) == - (inject_Z (Z.pos mp) * pow2 ep)).
           { rewrite F2Q_sign. ring. }
           lra.
      * (* g > 0: the product is negative *)
        pose proof (round_pos_spec true x Hx) as S.
        destruct (round_pos true x) as [s|s| |s m' e'] eqn:Er; try contradiction.
        -- cbv beta iota delta [fadd]. exact Hp.
        -- destruct S as [-> _]. reflexivity.
        -- destruct S as (-> & _). cbv beta iota delta [fadd].
           change (S754_zero false) with (round_to_double false 0).
           apply round_to_double_mono.
           pose proof (F2Q_neg m' e'). simpl. simpl in Hpn. lra.
Qed.

Local Open Scope Z_scope.

(** X1. The floor at work.  For a base price that is zero or negative (a
    double) and a finite normal draw of at least -1, the sum
    [base_price + change] is not positive, so [max] answers the floor and
    the price of the observation is exactly 1.0. *)
Theorem generate_price_is_floor_for_nonpositive_base symbol p vol E st :
  env_ok E ->
  valid_binary 53 1024 p = true -> is_finite p = true ->
  fle p (float_of_int 0) = true ->
  is_finite (draw_gauss E st vol) = true ->
  fle (fneg (float_of_int 1)) (draw_gauss E st vol) = true ->
  exists pd,
    generate_price_update symbol p vol E st = (Ok pd, after_generate st) /\
    pymax (fadd p (fmul (draw_gauss E st vol) p)) (lit 1.0) = lit 1.0 /\
    price pd = lit 1.0.
Proof.
  intros HE Hv Fp Hp Fg Hg.
  destruct (generate_returns symbol p vol E st HE) as (v & _ & _ & Hgen).
  pose proof (nonpositive_sum p _ Hv Fp Hp Fg Hg) as Hsum.
  apply fle_zero_lt_one in Hsum.
  assert (Hmax : pymax (fadd p (fmul (draw_gauss E st vol) p)) (lit 1.0) = lit 1.0).
  { unfold pymax, fgt. rewrite Hsum. reflexivity. }
  eexists. split; [exact Hgen|]. split; [exact Hmax|].
  cbn [price]. rewrite Hmax. vm_compute. reflexivity.
Qed.

Lemma generate_price_is_floor_for_nonpositive_base_witness :
  env_ok env_down /\
  valid_binary 53 1024 (fneg (lit 12.5)) = true /\ is_finite (fneg (lit 12.5)) = true /\
  fle (fneg (lit 12.5)) (float_of_int 0) = true /\
  is_finite (draw_gauss env_down initial_state default_volatility) = true /\
  fle (fneg (float_of_int 1)) (draw_gauss env_down initial_state default_volatility) = true /\
  exists pd,
    generate_price_update "AAPL" (fneg (lit 12.5)) default_volatility env_down initial_state
      = (Ok pd, after_generate initial_state) /\
    price pd = lit 1.0.
Proof.
  assert (Hok : env_ok env_down) by (apply with_gauss_ok, env0_ok).
  split; [exact Hok|].
  split; [vm_compute; reflexivity|]. split; [vm_compute; reflexivity|].
  split; [vm_compute; reflexivity|]. split; [vm_compute; reflexivity|].
  split; [vm_compute; reflexivity|].
  destruct (generate_price_is_floor_for_nonpositive_base "AAPL" (fneg (lit 12.5))
              default_volatility env_down initial_state Hok
              ltac:(vm_compute; reflexivity) ltac:(vm_compute; reflexivity)
              ltac:(vm_compute; reflexivity) ltac:(vm_compute; reflexivity)
              ltac:(vm_compute; reflexivity)) as (pd & Hgen & _ & Hprice).
  exists pd. split; [exact Hgen | exact Hprice].
Defined.

(** * The previous close, within five percent of the base price *)

Local Open Scope Q_scope.

Lemma fle_zero_zero s s' : fle (S754_zero s) (S754_zero s') = true.
Proof. reflexivity. Qed.

Lemma nonneg_shape x :
  fle (S754_zero false) x = true ->
  (exists s, x = S754_zero s) \/ x = S754_infinity false \/
  exists m e, x = S754_finite false m e.
Proof.
  intro H. destruct x as [s|s| |s m e]; try discriminate H.
  - left. eauto.
  - destruct s; [discriminate H | auto].
  - destruct s; [|right; right; eauto]. exfalso.
    apply fle_finite in H; [|reflexivity|reflexivity].
    pose proof (F2Q_neg m e) as Hn. simpl in H. simpl in Hn. lra.
Qed.

Lemma py_round_2_nonneg m e sz :
  fle (S754_zero sz) (py_round (S754_finite false m e) 2) = true.
Proof.
  rewrite py_round_2_finite.
  destruct (round_half_even _) as [|n|n]; try reflexivity.
  apply round_pos_ge_zero. apply Qlt_shift_div_l; [reflexivity|]. reflexivity.
Qed.

Lemma py_round_2_not_nan x : is_nan x = false -> is_nan (py_round x 2) = false.
Proof.
  destruct x as [s|s| |s m e]; try discriminate; intros _; try reflexivity.
  rewrite py_round_2_finite.
  destruct (round_half_even _) as [|n|n]; try reflexivity.
  apply round_pos_not_nan. apply Qlt_shift_div_l; reflexivity.
Qed.

(** [round(., 2)] keeps the order of numbers that are not negative. *)
Lemma py_round_2_mono x y :
  fle (S754_zero false) x = true -> fle x y = true ->
  fle (py_round x 2) (py_round y 2) = true.
Proof.
  intros H0 Hxy. pose proof (fle_trans _ _ _ H0 Hxy) as H0y.
  destruct (nonneg_shape y H0y) as [(sy & ->) | [-> | (my & ey & ->)]].
  - destruct (nonneg_shape x H0) as [(sx & ->) | [-> | (mx & ex & ->)]].
    + reflexivity.
    + discriminate Hxy.
    + exfalso. apply fle_finite in Hxy; [|reflexivity|reflexivity].
      pose proof (F2Q_pos mx ex) as Hp. simpl in Hxy. lra.
  - apply fle_posinf_r. apply py_round_2_not_nan.
    destruct (fle_not_nan _ _ Hxy) as [Hx _]. exact Hx.
  - destruct (nonneg_shape x H0) as [(sx & ->) | [-> | (mx & ex & ->)]].
    + apply py_round_2_nonneg.
    + discriminate Hxy.
    + apply fle_finite in Hxy; [|reflexivity|reflexivity].
      rewrite !py_round_2_finite.
      pose proof (F2Q_pos mx ex) as Hpx. pose proof (F2Q_pos my ey) as Hpy.
      assert (Hn : (round_half_even (Qabs (F2Q (S754_finite false mx ex)) * 100)
                    <= round_half_even (Qabs (F2Q (S754_finite false my ey)) * 100))%Z).
      { apply rhe_mono. rewrite !Qabs_pos by (simpl; lra). lra. }
      assert (Hx0 : (0 <= round_half_even (Qabs (F2Q (S754_finite false mx ex)) * 100))%Z).
      { apply rhe_nonneg. rewrite Qabs_pos by (simpl; lra). simpl. lra. }
      destruct (round_half_even (Qabs (F2Q (S754_finite false mx ex)) * 100)) as [|nx|nx];
        destruct (round_half_even (Qabs (F2Q (S754_finite false my ey)) * 100)) as [|ny|ny];
        try lia; try reflexivity.
      * apply round_pos_ge_zero. apply Qlt_shift_div_l; reflexivity.
      * apply round_pos_mono.
        -- apply Qlt_shift_div_l; reflexivity.
        -- apply Qmult_le_compat_r; [|discriminate]. rewrite <- Zle_Qle. exact Hn.
Qed.

(** [p * a <= p * b] for a positive [p], infinite or not, and finite positive
    factors [a <= b]. *)
Lemma fmul_positive_mono p a b :
  flt (float_of_int 0) p = true ->
  is_finite a = true -> is_finite b = true ->
  0 < F2Q a -> F2Q a <= F2Q b ->
  fle (S754_zero false) (fmul p a) = true /\ fle (fmul p a) (fmul p b) = true.
Proof.
  intros Hp Fa Fb Pa Hab.
  destruct (finite_pos_shape a Fa Pa) as (ma & ea & ->).
  destruct (finite_pos_shape b Fb ltac:(lra)) as (mb & eb & ->).
  destruct (flt_zero_shape p Hp) as [-> | (m & e & ->)].
  - split; reflexivity.
  - pose proof (F2Q_pos m e) as Hpp. split.
    + cbv beta iota delta [fmul xorb]. apply round_pos_ge_zero.
      apply Qmult_lt_0_compat; apply Qabs_F2Q_pos.
    + apply fmul_mono_pos; try reflexivity; try assumption;
        try exact Hpp; try apply Qle_refl.
Qed.

Local Open Scope Z_scope.

(** X2. The previous close stays within five percent of the base price.  For a
    positive base price [p], the previous_close field lies between
    [round(p * 0.95, 2)] and [round(p * 1.05, 2)], and is never negative. *)
Theorem generate_previous_close_within_five_percent symbol p vol E st :
  env_ok E ->
  flt (float_of_int 0) p = true ->
  exists pd,
    generate_price_update symbol p vol E st = (Ok pd, after_generate st) /\
    fle (py_round (fmul p (lit 0.95)) 2) (previous_close pd) = true /\
    fle (previous_close pd) (py_round (fmul p (lit 1.05)) 2) = true /\
    fle (float_of_int 0) (previous_close pd) = true.
Proof.
  intros HE Hp.
  destruct (generate_returns symbol p vol E st HE) as (v & _ & _ & Hrun).
  eexists. split; [exact Hrun|]. cbn [previous_close].
  destruct (uniform_range E HE (1 + draws st) (fneg (lit 0.05)) (lit 0.05) eq_refl)
    as [Hu1 Hu2].
  fold (draw_close E st) in Hu1, Hu2.
  destruct (fadd_one_between (fneg (lit 0.05)) (lit 0.05) _ eq_refl eq_refl Hu1 Hu2)
    as [Hf1 Hf2].
  assert (E1 : fadd (float_of_int 1) (fneg (lit 0.05)) = lit 0.95) by (vm_compute; reflexivity).
  assert (E2 : fadd (float_of_int 1) (lit 0.05) = lit 1.05) by (vm_compute; reflexivity).
  rewrite E1 in Hf1. rewrite E2 in Hf2.
  set (factor := fadd (float_of_int 1) (draw_close E st)) in *.
  destruct (fle_between (lit 0.95) factor (lit 1.05) eq_refl eq_refl Hf1 Hf2)
    as (Ff & L1 & L2).
  assert (Q95 : (0 < F2Q (lit 0.95))%Q) by (vm_compute; reflexivity).
  destruct (fmul_positive_mono p (lit 0.95) factor Hp eq_refl Ff Q95 L1) as [Ha Hb].
  destruct (fmul_positive_mono p factor (lit 1.05) Hp Ff eq_refl ltac:(lra) L2) as [Hc Hd].
  assert (E0 : float_of_int 0 = S754_zero false) by (vm_compute; reflexivity).
  split; [apply py_round_2_mono; assumption|].
  split; [apply py_round_2_mono; assumption|].
  rewrite E0.
  change (S754_zero false) with (py_round (S754_zero false) 2).
  apply py_round_2_mono; [reflexivity | exact Hc].
Qed.

Lemma generate_previous_close_within_five_percent_witness :
  env_ok env0 /\ flt (float_of_int 0) (lit 250.30) = true /\
  exists pd,
    generate_price_update "TSLA" (lit 250.30) default_volatility env0 initial_state
      = (Ok pd, after_generate initial_state) /\
    fle (previous_close pd) (py_round (fmul (lit 250.30) (lit 1.05)) 2) = true.
Proof.
  split; [exact env0_ok|]. split; [vm_compute; reflexivity|].
  destruct (generate_previous_close_within_five_percent "TSLA" (lit 250.30)
              default_volatility env0 initial_state env0_ok
              ltac:(vm_compute; reflexivity)) as (pd & Hrun & _ & Hhi & _).
  exists pd. split; [exact Hrun | exact Hhi].
Defined.

(** * Effects of the parts, and how they compose *)

Lemma advanced_refl st : advanced st st 0 0 [] [] [].
Proof. unfold advanced. rewrite !app_nil_r. auto. Qed.

Lemma advanced_trans st st1 st2 nd nc l p s nd' nc' l' p' s' :
  advanced st st1 nd nc l p s ->
  advanced st1 st2 nd' nc' l' p' s' ->
  advanced st st2 (nd' + nd) (nc' + nc) (l ++ l')%list (p ++ p')%list (s ++ s')%list.
Proof.
  intros (A1 & A2 & A3 & A4 & A5) (B1 & B2 & B3 & B4 & B5). unfold advanced.
  rewrite B1, B2, B3, B4, B5, A1, A2, A3, A4, A5, !app_assoc.
  repeat split; lia.
Qed.

(** One tick: the simulator, then the emitter on what it returned. *)
Lemma tick_run sym base E st :
  env_ok E ->
  exists pd ns line st',
    generate_price_update sym base default_volatility E st = (Ok pd, after_generate st) /\
    send_price_to_http_source http_source_url source_id pd E (after_generate st) = (Ok tt, st') /\
    tick_of E (draws st) (clock_reads st) sym base (events_url, envelope pd ns) /\
    line = log_line E pd (http_src E (List.length (posted st)) events_url (envelope pd ns)) /\
    advanced st st' 4 2 [line] [(events_url, envelope pd ns)] [].
Proof.
  intro HE.
  destruct (generate_returns sym base default_volatility E st HE) as (v & Hv & _ & Hgen).
  destruct (send_run http_source_url source_id
              {| symbol := sym;
                 price := py_round (pymax (fadd base (fmul (draw_gauss E st default_volatility) base)) (lit 1.0)) 2;
                 previous_close := py_round (fmul base (fadd (float_of_int 1) (draw_close E st))) 2;
                 volume := v; timestamp := now_src E (clock_reads st) |}
              E (after_generate st) HE) as (ns & Hns & _ & Hsend).
  eexists. exists ns. eexists. eexists. split; [exact Hgen|].
  split; [exact Hsend|]. split; [|split; [reflexivity|]].
  - eexists. exists ns. split; [reflexivity|].
    cbn [symbol price previous_close volume timestamp].
    do 3 (split; [reflexivity|]). split; [exact Hv|]. split; [reflexivity | exact Hns].
  - unfold advanced. cbn [draws clock_reads stdout posted slept after_generate].
    rewrite app_nil_r. repeat split; lia.
Qed.

(** One iteration of phase 1: a tick and a pause of 0.1 s, during which
    Ctrl+C may arrive. *)
Lemma initial_price_step sym base E st :
  env_ok E ->
  exists post line st',
    (price_data <- generate_price_update sym base default_volatility ;;
     send_price_to_http_source http_source_url source_id price_data ;;;
     time_sleep (lit 0.1))%monad E st
    = (if interrupt_src E (List.length (slept st)) then Raise KeyboardInterrupt else Ok tt,
       st') /\
    tick_of E (draws st) (clock_reads st) sym base post /\
    is_log_line E line /\
    advanced st st' 4 2 [line] [post] [lit 0.1].
Proof.
  intro HE.
  destruct (tick_run sym base E st HE) as (pd & ns & line & st1 & Hgen & Hsend & Htick & Hline & Hadv).
  destruct Hadv as (A1 & A2 & A3 & A4 & A5). rewrite app_nil_r in A5.
  exists (events_url, envelope pd ns), line. eexists.
  split; [|split; [exact Htick|split; [eexists; eexists; exact Hline|]]].
  - rewrite (bind_ok _ _ _ _ _ _ Hgen). rewrite (bind_ok _ _ _ _ _ _ Hsend).
    unfold time_sleep. rewrite A5.
    destruct (interrupt_src E (List.length (slept st))); reflexivity.
  - unfold advanced. cbn [draws clock_reads stdout posted slept].
    rewrite A1, A2, A3, A4. auto.
Qed.

(** Phase 1 over any table, when no Ctrl+C arrives during its pauses. *)
Lemma phase1_run E tbl :
  env_ok E ->
  forall st,
    (forall i, (i < List.length tbl)%nat ->
               interrupt_src E (List.length (slept st) + i) = false) ->
    exists lines posts st',
      send_initial_prices tbl E st = (Ok tt, st') /\
      advanced st st' (4 * List.length tbl) (2 * List.length tbl) lines posts
        (repeat (lit 0.1) (List.length tbl)) /\
      List.length lines = List.length tbl /\
      Forall (is_log_line E) lines /\
      List.length posts = List.length tbl /\
      forall i sym base,
        nth_error tbl i = Some (sym, base) ->
        exists post,
          nth_error posts i = Some post /\
          tick_of E (4 * i + draws st) (2 * i + clock_reads st) sym base post.
Proof.
  intro HE. induction tbl as [|[sym base] tbl IH]; intros st Hint.
  - exists [], [], st. split; [reflexivity|]. split; [apply advanced_refl|].
    repeat split; [constructor|]. intros [|i] s b H; discriminate H.
  - destruct (initial_price_step sym base E st HE) as (post & line & st1 & Hrun & Htick & Hlog & Hadv).
    assert (H0 : interrupt_src E (List.length (slept st)) = false).
    { rewrite <- (Nat.add_0_r (List.length (slept st))). apply Hint. cbn. lia. }
    rewrite H0 in Hrun.
    pose proof Hadv as (A1 & A2 & _ & _ & A5).
    destruct (IH st1) as (lines & posts & st' & Hrest & Hadv' & Hl & Hlogs & Hp & Hnth).
    { intros i Hi. rewrite A5, length_app. cbn [List.length].
      replace (List.length (slept st) + 1 + i)%nat with (List.length (slept st) + S i)%nat by lia.
      apply Hint. cbn. lia. }
    exists (line :: lines), (post :: posts), st'. split; [|split; [|split; [|split; [|split]]]].
    + unfold send_initial_prices. cbn [for_each].
      rewrite (bind_ok _ _ _ _ _ _ Hrun). exact Hrest.
    + pose proof (advanced_trans _ _ _ _ _ _ _ _ _ _ _ _ _ Hadv Hadv') as H.
      cbn [List.length repeat app] in *.
      replace (4 * S (List.length tbl))%nat with (4 * List.length tbl + 4)%nat by lia.
      replace (2 * S (List.length tbl))%nat with (2 * List.length tbl + 2)%nat by lia.
      exact H.
    + cbn. lia.
    + constructor; assumption.
    + cbn. lia.
    + intros [|i] s b H.
      * cbn in H. inversion H; subst. exists post. split; [reflexivity|]. exact Htick.
      * cbn in H. destruct (Hnth i s b H) as (q & Hq & Ht). exists q. split; [exact Hq|].
        rewrite A1, A2 in Ht.
        replace (4 * S i + draws st)%nat with (4 * i + (4 + draws st))%nat by lia.
        replace (2 * S i + clock_reads st)%nat with (2 * i + (2 + clock_reads st))%nat by lia.
        exact Ht.
Qed.

(** Phase 1 when the first Ctrl+C arrives during its pause numbered [k]. *)
Lemma phase1_interrupted E tbl :
  env_ok E ->
  forall k st,
    (k < List.length tbl)%nat ->
    first_interrupt E (List.length (slept st)) k ->
    exists lines posts st',
      send_initial_prices tbl E st = (Raise KeyboardInterrupt, st') /\
      advanced st st' (4 * S k) (2 * S k) lines posts (repeat (lit 0.1) (S k)) /\
      List.length lines = S k /\ Forall (is_log_line E) lines /\
      List.length posts = S k.
Proof.
  intro HE. induction tbl as [|[sym base] tbl IH]; intros k st Hk [Hat Hbefore].
  - cbn in Hk. lia.
  - destruct (initial_price_step sym base E st HE) as (post & line & st1 & Hrun & _ & Hlog & Hadv).
    pose proof Hadv as (A1 & A2 & _ & _ & A5).
    destruct k as [|k].
    + rewrite Nat.add_0_r in Hat. rewrite Hat in Hrun.
      exists [line], [post], st1.
      split; [|split; [exact Hadv | repeat split; repeat constructor; exact Hlog]].
      unfold send_initial_prices. cbn [for_each]. unfold bind at 1. 
      cbv beta in Hrun. rewrite Hrun. reflexivity.
    + assert (H0 : interrupt_src E (List.length (slept st)) = false).
      { rewrite <- (Nat.add_0_r (List.length (slept st))). apply Hbefore. lia. }
      rewrite H0 in Hrun.
      destruct (IH k st1) as (lines & posts & st' & Hrest & Hadv' & Hl & Hlogs & Hp).
      { cbn in Hk. lia. }
      { rewrite A5, length_app. cbn [List.length]. split.
        - replace (List.length (slept st) + 1 + k)%nat with (List.length (slept st) + S k)%nat by lia.
          exact Hat.
        - intros i Hi.
          replace (List.length (slept st) + 1 + i)%nat with (List.length (slept st) + S i)%nat by lia.
          apply Hbefore. lia. }
      exists (line :: lines), (post :: posts), st'. split; [|split; [|split; [|split]]].
      * unfold send_initial_prices. cbn [for_each].
        rewrite (bind_ok _ _ _ _ _ _ Hrun). exact Hrest.
      * pose proof (advanced_trans _ _ _ _ _ _ _ _ _ _ _ _ _ Hadv Hadv') as H.
        cbn [List.length repeat app] in *.
        replace (4 * S (S k))%nat with (4 * S k + 4)%nat by lia.
        replace (2 * S (S k))%nat with (2 * S k + 2)%nat by lia.
        exact H.
      * cbn. lia.
      * constructor; assumption.
      * cbn. lia.
Qed.

Lemma getitem_setitem_other (tbl : table) k v k' :
  k' <> k -> getitem (setitem tbl k v) k' = getitem tbl k'.
Proof.
  intro Hne. induction tbl as [|[a w] tbl IH]; cbn.
  - destruct (String.eqb_spec k k'); [congruence | reflexivity].
  - destruct (String.eqb_spec a k) as [->|Hak]; cbn.
    + destruct (String.eqb_spec k k'); [congruence | reflexivity].
    + destruct (String.eqb a k'); [reflexivity | exact IH].
Qed.

Lemma getitem_missing (tbl : table) k :
  ~ In k (keys tbl) -> getitem tbl k = Raise (KeyError k).
Proof.
  induction tbl as [|[a w] tbl IH]; cbn; [reflexivity|].
  intro H. destruct (String.eqb_spec a k) as [->|Hne].
  - exfalso. apply H. left. reflexivity.
  - apply IH. intro Hin. apply H. right. exact Hin.
Qed.

(** One pass of the inner loop of phase 2. *)
Lemma update_symbol_step tbl sym E st :
  env_ok E -> In sym (keys tbl) ->
  exists c post line st',
    let f := uniform_src E (draws st) (fneg (lit 0.001)) (lit 0.001) in
    let factor := fadd (float_of_int 1) f in
    getitem tbl sym = Ok c /\
    fle (lit 0.999) factor = true /\ fle factor (lit 1.001) = true /\
    update_symbol tbl sym E st = (Ok (setitem tbl sym (fmul c factor)), st') /\
    tick_of E (1 + draws st) (clock_reads st) sym (fmul c factor) post /\
    advanced st st' 5 2 [line] [post] [].
Proof.
  intros HE Hin.
  destruct (getitem_in tbl sym Hin) as (c & Hc).
  set (f := uniform_src E (draws st) (fneg (lit 0.001)) (lit 0.001)).
  set (factor := fadd (float_of_int 1) f).
  destruct (drift_range E (draws st) HE) as (_ & _ & Hf1 & Hf2). fold f in Hf1, Hf2.
  fold factor in Hf1, Hf2.
  destruct (tick_run sym (fmul c factor) E (next_draw st) HE)
    as (pd & ns & line & st' & Hgen & Hsend & Htick & _ & Hadv).
  exists c, (events_url, envelope pd ns), line, st'. cbv zeta. fold f. fold factor.
  split; [exact Hc|]. split; [exact Hf1|]. split; [exact Hf2|].
  split; [|split].
  - unfold update_symbol. unfold bind at 1. unfold lift at 1. rewrite Hc.
    unfold bind at 1. unfold random_uniform at 1. fold f. fold factor.
    unfold bind at 1. unfold lift at 1. rewrite getitem_setitem.
    rewrite (bind_ok _ _ _ _ _ _ Hgen). rewrite (bind_ok _ _ _ _ _ _ Hsend).
    reflexivity.
  - exact Htick.
  - destruct Hadv as (A1 & A2 & A3 & A4 & A5). unfold advanced.
    cbn [draws clock_reads stdout posted slept next_draw] in *.
    rewrite A1, A2, A3, A4, A5. repeat split; lia.
Qed.

Lemma tick_of_request E d c sym base post :
  tick_of E d c sym base post -> request_for sym post.
Proof.
  intros (pd & ns & -> & Hsym & _). unfold request_for. cbn. rewrite Hsym. auto.
Qed.

(** The inner loop over distinct or repeated symbols of the table. *)
Lemma inner_loop_run E syms :
  env_ok E ->
  forall tbl st,
    incl syms (keys tbl) ->
    exists tbl' lines posts st',
      for_fold syms update_symbol tbl E st = (Ok tbl', st') /\
      advanced st st' (5 * List.length syms) (2 * List.length syms) lines posts [] /\
      List.length lines = List.length syms /\
      Forall2 request_for syms posts /\
      keys tbl' = keys tbl /\
      (forall s, ~ In s syms -> getitem tbl' s = getitem tbl s) /\
      (NoDup syms -> forall s, In s syms ->
         exists c factor,
           getitem tbl s = Ok c /\
           fle (lit 0.999) factor = true /\ fle factor (lit 1.001) = true /\
           getitem tbl' s = Ok (fmul c factor)).
Proof.
  intro HE. induction syms as [|sym syms IH]; intros tbl st Hincl.
  - exists tbl, [], [], st. split; [reflexivity|]. split; [apply advanced_refl|].
    split; [reflexivity|]. split; [constructor|]. split; [reflexivity|].
    split; [reflexivity|]. intros _ s [].
  - assert (Hin : In sym (keys tbl)) by (apply Hincl; left; reflexivity).
    destruct (update_symbol_step tbl sym E st HE Hin)
      as (c & post & line & st1 & Hstep). cbv zeta in Hstep.
    destruct Hstep as (Hc & Hf1 & Hf2 & Hrun & Htick & Hadv).
    set (factor := fadd (float_of_int 1)
                     (uniform_src E (draws st) (fneg (lit 0.001)) (lit 0.001))) in *.
    set (tbl1 := setitem tbl sym (fmul c factor)) in *.
    assert (Hk1 : keys tbl1 = keys tbl) by (apply keys_setitem; exact Hin).
    destruct (IH tbl1 st1) as (tbl' & lines & posts & st' & Hrest & Hadv' & Hl & Hreq & Hk & Hout & Hin').
    { rewrite Hk1. intros x Hx. apply Hincl. right. exact Hx. }
    exists tbl', (line :: lines), (post :: posts), st'.
    split; [|split; [|split; [|split; [|split; [|split]]]]].
    + cbn [for_fold]. rewrite (bind_ok _ _ _ _ _ _ Hrun). exact Hrest.
    + pose proof (advanced_trans _ _ _ _ _ _ _ _ _ _ _ _ _ Hadv Hadv') as H.
      cbn [List.length app] in *.
      replace (5 * S (List.length syms))%nat with (5 * List.length syms + 5)%nat by lia.
      replace (2 * S (List.length syms))%nat with (2 * List.length syms + 2)%nat by lia.
      exact H.
    + cbn. lia.
    + constructor; [exact (tick_of_request _ _ _ _ _ _ Htick) | exact Hreq].
    + congruence.
    + intros s Hs. rewrite Hout by (intro H; apply Hs; right; exact H).
      apply getitem_setitem_other. intro He. apply Hs. left. congruence.
    + intros Hnd s Hs. inversion Hnd as [|x l Hnotin Hnd']; subst.
      destruct Hs as [<- | Hs].
      * exists c, factor. split; [exact Hc|]. split; [exact Hf1|]. split; [exact Hf2|].
        rewrite (Hout sym Hnotin). apply getitem_setitem.
      * destruct (Hin' Hnd' s Hs) as (c' & factor' & Hc' & Hg1 & Hg2 & Hnew).
        exists c', factor'. split; [|auto].
        rewrite <- Hc'. symmetry. apply getitem_setitem_other.
        intro He. subst s. contradiction.
Qed.

Lemma Forall2_request_ids syms posts :
  Forall2 request_for syms posts ->
  map (fun post => Element.id (Event.element (snd post))) posts
  = map (fun s => ("price_" ++ s)%string) syms /\
  map fst posts = repeat events_url (List.length syms).
Proof.
  induction 1 as [|s p syms posts (H1 & H2 & _) _ [IH1 IH2]]; [auto|].
  cbn. rewrite H1, H2, IH1, IH2. auto.
Qed.



(** One cycle of phase 2, in full. *)
Lemma update_cycle_run tbl E st :
  env_ok E ->
  keys tbl = keys stocks ->
  let symbols := sample_src E (1 + draws st) (keys tbl) (randint_src E (draws st) 3 8) in
  let n := List.length symbols in
  let d := uniform_src E (2 + 5 * n + draws st) (float_of_int 1) (float_of_int 3) in
  (3 <= n <= 8)%nat /\ NoDup symbols /\ incl symbols (keys tbl) /\
  fle (float_of_int 1) d = true /\ fle d (float_of_int 3) = true /\
  exists tbl' lines posts st',
    update_cycle tbl E st =
      (if interrupt_src E (List.length (slept st)) then Raise KeyboardInterrupt
       else Ok tbl', st') /\
    advanced st st' (3 + 5 * n) (2 * n) lines posts [d] /\
    List.length lines = n /\
    Forall2 request_for symbols posts /\
    keys tbl' = keys stocks /\
    (forall s, ~ In s symbols -> getitem tbl' s = getitem tbl s) /\
    (forall s, In s symbols ->
       exists c factor,
         getitem tbl s = Ok c /\
         fle (lit 0.999) factor = true /\ fle factor (lit 1.001) = true /\
         getitem tbl' s = Ok (fmul c factor)).
Proof.
  intros HE Hkeys symbols n d.
  set (num_updates := randint_src E (draws st) 3 8) in *.
  assert (Hk : 3 <= num_updates <= 8) by (apply (randint_range E HE); lia).
  assert (Hlen : List.length (keys tbl) = 24%nat) by (rewrite Hkeys; reflexivity).
  destruct (sample_spec E HE (1 + draws st) (keys tbl) num_updates) as (Hs1 & Hs2 & Hs3).
  { rewrite Hlen. lia. }
  fold symbols in Hs1, Hs2, Hs3. fold n in Hs1.
  assert (Hnd : NoDup symbols).
  { apply Hs2. rewrite Hkeys. apply NoDup_keys_stocks. }
  destruct (uniform_range E HE (2 + 5 * n + draws st) (float_of_int 1) (float_of_int 3) eq_refl)
    as [Hd1 Hd2]. fold d in Hd1, Hd2.
  split; [lia|]. split; [exact Hnd|]. split; [exact Hs3|].
  split; [exact Hd1|]. split; [exact Hd2|].
  destruct (inner_loop_run E symbols HE tbl (next_draw (next_draw st)) Hs3)
    as (tbl' & lines & posts & st1 & Hrun & Hadv & Hl & Hreq & Hk' & Hout & Hin).
  fold n in Hadv, Hl.
  destruct Hadv as (A1 & A2 & A3 & A4 & A5).
  cbn [draws clock_reads stdout posted slept next_draw] in A1, A2, A3, A4, A5.
  rewrite app_nil_r in A5.
  exists tbl', lines, posts. eexists.
  split; [|split; [|split; [exact Hl|split; [exact Hreq|split; [congruence|split; [exact Hout|]]]]]].
  - unfold update_cycle. unfold bind at 1. unfold random_randint at 1.
    cbn [Z.ltb Z.compare Pos.compare Pos.compare_cont]. fold num_updates.
    unfold bind at 1. unfold random_sample at 1.
    assert (Hc : ((num_updates <? 0) || (Z.of_nat (List.length (keys tbl)) <? num_updates)) = false).
    { rewrite Hlen. apply orb_false_iff. split; apply Z.ltb_ge; lia. }
    rewrite Hc. cbn [draws next_draw]. fold symbols.
    rewrite (bind_ok _ _ _ _ _ _ Hrun).
    unfold bind at 1. unfold random_uniform at 1.
    unfold bind, time_sleep, ret. cbn [slept next_draw]. rewrite A5, A1.
    replace (5 * n + S (S (draws st)))%nat with (2 + 5 * n + draws st)%nat by lia.
    fold d.
    destruct (interrupt_src E (List.length (slept st))); reflexivity.
  - unfold advanced.
    destruct (interrupt_src E (List.length (slept st)));
      cbn [draws clock_reads stdout posted slept next_draw];
      rewrite ?A1, ?A2, ?A3, ?A4, ?A5; repeat split; lia.
  - intros s Hs. apply Hin; assumption.
Qed.

Lemma with_interrupt_ok E i : env_ok E -> env_ok (with_interrupt E i).
Proof. intros [H1 H2 H3 H4]. constructor; assumption. Qed.

(** X3. Phase 1 at its own pace.  Without Ctrl+C, the initial pass over a table
    returns after one tick and one pause of exactly 0.1 s per entry, the
    last entry included: it prints one line of the emitter per entry, makes
    four draws and two clock reads per entry, and the request numbered [i]
    is the tick for the entry numbered [i] at its seeded price, built from
    the draws [4 i .. 4 i + 3] and the clock reads [2 i] and [2 i + 1]. *)
Theorem initial_prices_pacing E tbl st :
  env_ok E ->
  (forall i, (i < List.length tbl)%nat ->
     interrupt_src E (List.length (slept st) + i) = false) ->
  exists lines posts st',
    send_initial_prices tbl E st = (Ok tt, st') /\
    draws st' = (4 * List.length tbl + draws st)%nat /\
    clock_reads st' = (2 * List.length tbl + clock_reads st)%nat /\
    stdout st' = (stdout st ++ lines)%list /\
    List.length lines = List.length tbl /\ Forall (is_log_line E) lines /\
    slept st' = (slept st ++ repeat (lit 0.1) (List.length tbl))%list /\
    posted st' = (posted st ++ posts)%list /\
    List.length posts = List.length tbl /\
    forall i sym base,
      nth_error tbl i = Some (sym, base) ->
      exists post,
        nth_error posts i = Some post /\
        tick_of E (4 * i + draws st) (2 * i + clock_reads st) sym base post.
Proof.
  intros HE Hint.
  destruct (phase1_run E tbl HE st Hint)
    as (lines & posts & st' & Hrun & (A1 & A2 & A3 & A4 & A5) & Hl & Hlog & Hp & Hnth).
  exists lines, posts, st'. repeat (split; [assumption|]). exact Hnth.
Qed.

Lemma initial_prices_pacing_witness :
  env_ok env_forever /\
  (forall i, (i < List.length stocks)%nat ->
     interrupt_src env_forever (List.length (slept initial_state) + i) = false) /\
  exists st',
    send_initial_prices stocks env_forever initial_state = (Ok tt, st') /\
    draws st' = 96%nat /\ clock_reads st' = 48%nat /\
    slept st' = repeat (lit 0.1) 24.
Proof.
  assert (Hok : env_ok env_forever) by (apply with_interrupt_ok, env0_ok).
  assert (Hint : forall i, (i < List.length stocks)%nat ->
     interrupt_src env_forever (List.length (slept initial_state) + i) = false)
    by reflexivity.
  split; [exact Hok|]. split; [exact Hint|].
  destruct (initial_prices_pacing env_forever stocks initial_state Hok Hint)
    as (lines & posts & st' & Hrun & Hd & Hc & _ & _ & _ & Hs & _).
  exists st'. split; [exact Hrun|]. split; [exact Hd|]. split; [exact Hc | exact Hs].
Defined.



(** X5. One cycle of phase 2 seen from the table.  From a table of positive
    prices a cycle that is not interrupted returns a table with the same
    keys in which a symbol that was not sampled keeps its price, and the
    price [c] of a sampled symbol has moved by at most a tenth of a percent:
    it lies between [c * 0.999] and [c * 1.001]. *)
Theorem update_cycle_moves_prices_slightly tbl E st :
  env_ok E ->
  table_inv tbl ->
  interrupt_src E (List.length (slept st)) = false ->
  let symbols := sample_src E (1 + draws st) (keys tbl) (randint_src E (draws st) 3 8) in
  exists tbl' st',
    update_cycle tbl E st = (Ok tbl', st') /\
    keys tbl' = keys tbl /\
    forall s c,
      getitem tbl s = Ok c ->
      exists c',
        getitem tbl' s = Ok c' /\
        (~ In s symbols -> c' = c) /\
        (In s symbols ->
         fle (fmul c (lit 0.999)) c' = true /\ fle c' (fmul c (lit 1.001)) = true).
Proof.
  intros HE [Hkeys Hpos] Hint symbols.
  destruct (update_cycle_run tbl E st HE Hkeys)
    as (_ & _ & _ & _ & _ & tbl' & lines & posts & st' & Hrun & _ & _ & _ & Hk' & Hout & Hin).
  fold symbols in Hout, Hin. rewrite Hint in Hrun.
  exists tbl', st'. split; [exact Hrun|]. split; [congruence|].
  intros s c Hc.
  destruct (in_dec string_dec s symbols) as [Hs|Hs].
  - destruct (Hin s Hs) as (c0 & factor & Hc0 & Hf1 & Hf2 & Hc').
    assert (c0 = c) by congruence. subst c0.
    exists (fmul c factor). split; [exact Hc'|]. split; [contradiction|]. intros _.
    apply getitem_ok_in in Hc. rewrite Forall_forall in Hpos.
    destruct (Hpos _ Hc) as [_ Hc0']. cbn [snd] in Hc0'.
    destruct (fle_between (lit 0.999) factor (lit 1.001) eq_refl eq_refl Hf1 Hf2)
      as (Ff & L1 & L2).
    assert (Q999 : (0 < F2Q (lit 0.999))%Q) by (vm_compute; reflexivity).
    destruct (flt_zero_shape c Hc0') as [-> | (m & e & ->)].
    + destruct (finite_pos_shape factor Ff ltac:(lra)) as (mf & ef & ->).
      split; reflexivity.
    + pose proof (F2Q_pos m e) as Hp.
      change (inject_Z (Z.pos m) * pow2 e)%Q with (F2Q (S754_finite false m e)) in Hp.
      split; apply fmul_mono_pos; try reflexivity; try assumption; try lra.
  - exists c. split; [rewrite (Hout s Hs); exact Hc|]. split; [reflexivity | contradiction].
Qed.

Lemma update_cycle_moves_prices_slightly_witness :
  env_ok env0 /\ table_inv stocks /\
  interrupt_src env0 (List.length (slept initial_state)) = false /\
  exists tbl' st',
    update_cycle stocks env0 initial_state = (Ok tbl', st') /\
    getitem tbl' "CAT" = Ok (lit 285.30).
Proof.
  split; [exact env0_ok|]. split; [exact stocks_inv|]. split; [reflexivity|].
  destruct (update_cycle_moves_prices_slightly stocks env0 initial_state env0_ok
              stocks_inv eq_refl) as (tbl' & st' & Hrun & _ & Hget).
  exists tbl', st'. split; [exact Hrun|].
  destruct (Hget "CAT"%string (lit 285.30) eq_refl) as (c' & Hc' & Hsame & _).
  rewrite Hc'. f_equal. apply Hsame.
  vm_compute. intros [H|[H|[H|[]]]]; discriminate H.
Defined.

(** The loop of phase 2 when the first Ctrl+C arrives during the sleep of
    its cycle numbered [k]. *)
Lemma loop_interrupted E :
  env_ok E ->
  forall k fuel tbl st,
    keys tbl = keys stocks ->
    (k < fuel)%nat ->
    first_interrupt E (List.length (slept st)) k ->
    exists nd nc lines posts sleeps st',
      while_true fuel update_cycle tbl E st = (Raise KeyboardInterrupt, st') /\
      advanced st st' nd nc lines posts sleeps /\
      List.length sleeps = S k /\ Forall pause_ok sleeps /\
      (3 * S k <= List.length posts <= 8 * S k)%nat /\
      List.length lines = List.length posts /\
      Forall (fun post => fst post = events_url) posts.
Proof.
  intro HE. induction k as [|k IH]; intros fuel tbl st Hkeys Hfuel [Hat Hbefore].
  - destruct fuel as [|fuel]; [lia|].
    destruct (update_cycle_run tbl E st HE Hkeys)
      as (Hn & _ & _ & Hd1 & Hd2 & tbl' & lines & posts & st' & Hrun & Hadv & Hl & Hreq & _).
    rewrite Nat.add_0_r in Hat. rewrite Hat in Hrun.
    pose proof (Forall2_length Hreq) as Hlen.
    destruct (Forall2_request_ids _ _ Hreq) as [_ Hurls].
    do 5 eexists. exists st'. split; [|split; [exact Hadv|]].
    + cbn [while_true]. unfold bind. rewrite Hrun. reflexivity.
    + split; [reflexivity|]. split; [repeat constructor; assumption|].
      split; [lia|]. split; [lia|].
      apply Forall_forall. intros p Hp. apply (in_map fst) in Hp. rewrite Hurls in Hp.
      apply repeat_spec in Hp. exact Hp.
  - destruct fuel as [|fuel]; [lia|].
    destruct (update_cycle_run tbl E st HE Hkeys)
      as (Hn & _ & _ & Hd1 & Hd2 & tbl' & lines & posts & st1 & Hrun & Hadv & Hl & Hreq & Hk' & _).
    assert (H0 : interrupt_src E (List.length (slept st)) = false).
    { rewrite <- (Nat.add_0_r (List.length (slept st))). apply Hbefore. lia. }
    rewrite H0 in Hrun.
    pose proof Hadv as (_ & _ & _ & _ & A5).
    pose proof (Forall2_length Hreq) as Hlen.
    destruct (Forall2_request_ids _ _ Hreq) as [_ Hurls].
    destruct (IH fuel tbl' st1 Hk') as (nd & nc & lines' & posts' & sleeps' & st' & Hrest & Hadv' & Hs & Hp & Hb & Hl' & Hu).
    { lia. }
    { rewrite A5, length_app. cbn [List.length]. split.
      - replace (List.length (slept st) + 1 + k)%nat with (List.length (slept st) + S k)%nat by lia.
        exact Hat.
      - intros i Hi.
        replace (List.length (slept st) + 1 + i)%nat with (List.length (slept st) + S i)%nat by lia.
        apply Hbefore. lia. }
    do 5 eexists. exists st'. split; [|split; [exact (advanced_trans _ _ _ _ _ _ _ _ _ _ _ _ _ Hadv Hadv')|]].
    + cbn [while_true]. rewrite (bind_ok _ _ _ _ _ _ Hrun). exact Hrest.
    + split; [cbn; lia|]. split; [constructor; [split; assumption | exact Hp]|].
      rewrite !length_app. split; [lia|]. split; [lia|].
      apply Forall_app. split; [|exact Hu].
      apply Forall_forall. intros p Hp'. apply (in_map fst) in Hp'. rewrite Hurls in Hp'.
      apply repeat_spec in Hp'. exact Hp'.
Qed.

(** The loop of phase 2 while no Ctrl+C arrives: it is still running. *)
Lemma loop_running E :
  env_ok E ->
  forall fuel tbl st,
    keys tbl = keys stocks ->
    (forall i, (i < fuel)%nat -> interrupt_src E (List.length (slept st) + i) = false) ->
    exists nd nc lines posts sleeps st',
      while_true fuel update_cycle tbl E st = (Running, st') /\
      advanced st st' nd nc lines posts sleeps /\
      List.length sleeps = fuel /\
      (3 * fuel <= List.length posts <= 8 * fuel)%nat /\
      List.length lines = List.length posts.
Proof.
  intro HE. induction fuel as [|fuel IH]; intros tbl st Hkeys Hint.
  - exists 0%nat, 0%nat, [], [], [], st. split; [reflexivity|].
    split; [apply advanced_refl|]. cbn. repeat split; lia.
  - destruct (update_cycle_run tbl E st HE Hkeys)
      as (Hn & _ & _ & _ & _ & tbl' & lines & posts & st1 & Hrun & Hadv & Hl & Hreq & Hk' & _).
    assert (H0 : interrupt_src E (List.length (slept st)) = false).
    { rewrite <- (Nat.add_0_r (List.length (slept st))). apply Hint. lia. }
    rewrite H0 in Hrun.
    pose proof Hadv as (_ & _ & _ & _ & A5).
    pose proof (Forall2_length Hreq) as Hlen.
    destruct (IH tbl' st1 Hk') as (nd & nc & lines' & posts' & sleeps' & st' & Hrest & Hadv' & Hs & Hb & Hl').
    { intros i Hi. rewrite A5, length_app. cbn [List.length].
      replace (List.length (slept st) + 1 + i)%nat with (List.length (slept st) + S i)%nat by lia.
      apply Hint. lia. }
    do 5 eexists. exists st'. split; [|split; [exact (advanced_trans _ _ _ _ _ _ _ _ _ _ _ _ _ Hadv Hadv')|]].
    + cbn [while_true]. rewrite (bind_ok _ _ _ _ _ _ Hrun). exact Hrest.
    + rewrite !length_app. cbn [List.length]. repeat split; lia.
Qed.

(** * The whole program *)

Lemma bind_print line {B} (k : unit -> M B) E st :
  bind (print line) k E st = k tt E (printed st [line]).
Proof. reflexivity. Qed.

Lemma printed_printed st a b : printed (printed st a) b = printed st (a ++ b).
Proof. unfold printed. cbn. rewrite <- app_assoc. reflexivity. Qed.

Lemma advanced_printed st lines : advanced st (printed st lines) 0 0 lines [] [].
Proof. unfold advanced, printed. cbn. rewrite !app_nil_r. auto. Qed.

(** [main] is its two phases run after the header is printed. *)
Lemma main_phases fuel E st :
  main fuel E st =
  match send_initial_prices stocks E (printed st header_lines) with
  | (Ok _, st2) =>
      match while_true fuel update_cycle stocks E (printed st2 phase2_lines) with
      | (Ok _, st3) => (Ok tt, st3)
      | (Raise KeyboardInterrupt, st3) => (Ok tt, printed st3 shutdown_lines)
      | (Raise e, st3) => (Raise e, st3)
      | (Running, st3) => (Running, st3)
      end
  | (Raise e, st2) => (Raise e, st2)
  | (Running, st2) => (Running, st2)
  end.
Proof.
  unfold main. rewrite !bind_print, !printed_printed.
  change ([ "Starting simple price generator..."%string ] ++
          [ ("HTTP Source URL: " ++ http_source_url)%string ] ++
          [ ("Source ID: " ++ source_id)%string ] ++
          [ ("Generating prices for " ++ int_str (Z.of_nat (List.length stocks))
             ++ " stocks")%string ] ++
          [ str_repeat "-" 50 ] ++ [ "Sending initial prices..."%string ])%list
    with header_lines.
  unfold bind at 1.
  destruct (send_initial_prices stocks E (printed st header_lines)) as [[[]|e|] st2];
    try reflexivity.
  rewrite !bind_print, printed_printed.
  change ([str_repeat "-" 50] ++
          ["Starting continuous price updates (Ctrl+C to stop)..."%string])%list
    with phase2_lines.
  unfold try_except_KeyboardInterrupt, bind at 1.
  destruct (while_true fuel update_cycle stocks E (printed st2 phase2_lines)) as [[t|e|] st3];
    try reflexivity.
  destruct e; try reflexivity.
  rewrite bind_print. unfold print, printed, shutdown_lines.
  cbn [draws clock_reads stdout posted slept]. rewrite <- app_assoc. reflexivity.
Qed.

Lemma log_line_not_shutdown E line :
  is_log_line E line -> line <> "Price generator stopped"%string.
Proof.
  intros (pd & o & ->). unfold log_line.
  destruct o as [code body|d]; [destruct (code =? 200)|]; cbn; discriminate.
Qed.

Lemma first_interrupt_split E n a k :
  first_interrupt E n (a + k) ->
  (forall i, (i < a)%nat -> interrupt_src E (n + i) = false) /\
  first_interrupt E (n + a) k.
Proof.
  intros [Hat Hbefore]. split.
  - intros i Hi. apply Hbefore. lia.
  - split.
    + rewrite <- Nat.add_assoc. exact Hat.
    + intros i Hi. rewrite <- Nat.add_assoc. apply Hbefore. lia.
Qed.

(** X6. Ctrl+C during phase 2 ends the program cleanly.  When the first Ctrl+C
    arrives during the sleep that ends cycle [k] of phase 2, [main] returns
    normally: the header, 24 lines of phase 1, the two lines that open phase
    2, one line per request of phase 2 and the two shutdown lines have been
    printed; between 24 + 3 (k + 1) and 24 + 8 (k + 1) requests have been
    posted, all to the events address; the program has slept 24 times 0.1 s
    and k + 1 times between 1 and 3 s. *)
Theorem main_stops_on_interrupt_in_phase2 E st k fuel :
  env_ok E ->
  (k < fuel)%nat ->
  first_interrupt E (List.length (slept st)) (24 + k) ->
  exists lines1 lines2 posts sleeps st',
    main fuel E st = (Ok tt, st') /\
    stdout st' = (stdout st ++ header_lines ++ lines1 ++ phase2_lines
                  ++ lines2 ++ shutdown_lines)%list /\
    List.length lines1 = 24%nat /\
    (List.length lines2 + 24)%nat = List.length posts /\
    posted st' = (posted st ++ posts)%list /\
    (24 + 3 * S k <= List.length posts <= 24 + 8 * S k)%nat /\
    Forall (fun post => fst post = events_url) posts /\
    slept st' = (slept st ++ repeat (lit 0.1) 24 ++ sleeps)%list /\
    List.length sleeps = S k /\ Forall pause_ok sleeps.
Proof.
  intros HE Hfuel Hint.
  destruct (first_interrupt_split E _ 24 k Hint) as [Hquiet Hfirst].
  destruct (phase1_run E stocks HE (printed st header_lines) Hquiet)
    as (lines1 & posts1 & st2 & Hrun1 & Hadv1 & Hl1 & _ & Hp1 & Hnth).
  pose proof (advanced_trans _ _ _ _ _ _ _ _ _ _ _ _ _
                (advanced_printed st header_lines) Hadv1) as Hadv12.
  pose proof (advanced_trans _ _ _ _ _ _ _ _ _ _ _ _ _
                Hadv12 (advanced_printed st2 phase2_lines)) as Hadv13.
  pose proof Hadv13 as (_ & _ & _ & _ & A5).
  destruct (loop_interrupted E HE k fuel stocks (printed st2 phase2_lines) eq_refl Hfuel)
    as (nd & nc & lines2 & posts2 & sleeps & st3 & Hrun2 & Hadv2 & Hs & Hpause & Hb & Hl2 & Hu).
  { cbn [app] in A5. rewrite app_nil_r in A5.
    rewrite A5, length_app, repeat_length. exact Hfirst. }
  pose proof (advanced_trans _ _ _ _ _ _ _ _ _ _ _ _ _ Hadv13 Hadv2) as Hadv14.
  pose proof (advanced_trans _ _ _ _ _ _ _ _ _ _ _ _ _
                Hadv14 (advanced_printed st3 shutdown_lines)) as (_ & _ & B3 & B4 & B5).
  exists lines1, lines2, (posts1 ++ posts2)%list, sleeps, (printed st3 shutdown_lines).
  split.
  { rewrite main_phases, Hrun1, Hrun2. reflexivity. }
  split. { rewrite B3. rewrite <- !app_assoc. reflexivity. }
  split; [exact Hl1|].
  split. { rewrite length_app, Hp1, Hl2. cbn. lia. }
  split. { rewrite B4. cbn [app]. rewrite !app_nil_r. reflexivity. }
  split. { rewrite length_app, Hp1. cbn [List.length stocks]. cbn. lia. }
  split.
  { apply Forall_app. split; [|exact Hu]. apply Forall_forall. intros p Hp.
    apply In_nth_error in Hp. destruct Hp as (i & Hi).
    assert (Hlt : (i < List.length stocks)%nat).
    { rewrite <- Hp1. apply nth_error_Some. congruence. }
    destruct (nth_error stocks i) as [[sym base]|] eqn:Hs'.
    2:{ apply nth_error_None in Hs'. lia. }
    destruct (Hnth i sym base Hs') as (q & Hq & Ht).
    assert (q = p) by congruence. subst q.
    apply (tick_of_request _ _ _ _ _ _ Ht). }
  split. { rewrite B5. cbn [app]. rewrite !app_nil_r. reflexivity. }
  split; assumption.
Qed.

Lemma main_stops_on_interrupt_in_phase2_witness :
  env_ok env0 /\ (1 < 5)%nat /\
  first_interrupt env0 (List.length (slept initial_state)) (24 + 1) /\
  exists st',
    main 5 env0 initial_state = (Ok tt, st') /\
    List.length (slept st') = 26%nat /\
    last (stdout st') ""%string = "Price generator stopped"%string.
Proof.
  assert (Hint : first_interrupt env0 (List.length (slept initial_state)) (24 + 1)).
  { split; [reflexivity|]. intros i Hi. cbn. apply Nat.eqb_neq. lia. }
  split; [exact env0_ok|]. split; [lia|]. split; [exact Hint|].
  destruct (main_stops_on_interrupt_in_phase2 env0 initial_state 1 5 env0_ok
              ltac:(lia) Hint)
    as (l1 & l2 & posts & sleeps & st' & Hrun & Hout & _ & _ & _ & _ & _ & Hsl & Hlen & _).
  exists st'. split; [exact Hrun|]. split.
  - rewrite Hsl. cbn [slept initial_state app]. rewrite length_app, repeat_length. lia.
  - rewrite Hout. rewrite !app_assoc. unfold shutdown_lines.
    match goal with |- last (?a ++ [?x; ?y]) _ = _ =>
      change (a ++ [x; y])%list with (a ++ [x] ++ [y])%list; rewrite !app_assoc;
      apply last_last end.
Defined.

(** X7. Ctrl+C during phase 1 is not caught.  When the first Ctrl+C arrives
    during the pause numbered [k] of phase 1 (k < 24), [main] ends with
    KeyboardInterrupt raised: phase 1 lies outside the try block.  The
    header and k + 1 lines of the emitter have been printed, k + 1 requests
    posted, k + 1 pauses of 0.1 s begun, and the shutdown message is not
    printed. *)
Theorem main_interrupt_in_phase1_propagates E st k fuel :
  env_ok E ->
  (k < 24)%nat ->
  first_interrupt E (List.length (slept st)) k ->
  exists lines posts st',
    main fuel E st = (Raise KeyboardInterrupt, st') /\
    stdout st' = (stdout st ++ header_lines ++ lines)%list /\
    List.length lines = S k /\
    ~ In "Price generator stopped"%string (header_lines ++ lines) /\
    posted st' = (posted st ++ posts)%list /\ List.length posts = S k /\
    slept st' = (slept st ++ repeat (lit 0.1) (S k))%list.
Proof.
  intros HE Hk Hint.
  destruct (phase1_interrupted E stocks HE k (printed st header_lines) Hk Hint)
    as (lines & posts & st2 & Hrun & Hadv & Hl & Hlogs & Hp).
  pose proof (advanced_trans _ _ _ _ _ _ _ _ _ _ _ _ _
                (advanced_printed st header_lines) Hadv) as (_ & _ & B3 & B4 & B5).
  exists lines, posts, st2.
  split. { rewrite main_phases, Hrun. reflexivity. }
  split; [exact B3|]. split; [exact Hl|].
  split.
  { intro Hin. apply in_app_or in Hin. destruct Hin as [Hin|Hin].
    - cbn in Hin. repeat (destruct Hin as [Hin|Hin]; [discriminate Hin|]). exact Hin.
    - rewrite Forall_forall in Hlogs. exact (log_line_not_shutdown E _ (Hlogs _ Hin) eq_refl). }
  split; [exact B4|]. split; [exact Hp | exact B5].
Qed.

Lemma main_interrupt_in_phase1_propagates_witness :
  env_ok env_early /\ (3 < 24)%nat /\
  first_interrupt env_early (List.length (slept initial_state)) 3 /\
  exists st',
    main 5 env_early initial_state = (Raise KeyboardInterrupt, st') /\
    List.length (posted st') = 4%nat.
Proof.
  assert (Hok : env_ok env_early) by (apply with_interrupt_ok, env0_ok).
  assert (Hint : first_interrupt env_early (List.length (slept initial_state)) 3).
  { split; [reflexivity|]. intros i Hi. cbn. apply Nat.eqb_neq. lia. }
  split; [exact Hok|]. split; [lia|]. split; [exact Hint|].
  destruct (main_interrupt_in_phase1_propagates env_early initial_state 3 5 Hok
              ltac:(lia) Hint)
    as (lines & posts & st' & Hrun & _ & _ & _ & Hp & Hlen & _).
  exists st'. split; [exact Hrun|]. rewrite Hp. exact Hlen.
Defined.

(** X8. Without Ctrl+C the program does not end by itself.  If no Ctrl+C
    arrives during the 24 pauses of phase 1 and the first [fuel] sleeps of
    phase 2, then after [fuel] cycles [main] has neither returned nor
    raised: it is still in the loop, has slept once per cycle and has posted
    between 3 and 8 requests per cycle on top of the 24 of phase 1. *)
Theorem main_runs_until_interrupted E st fuel :
  env_ok E ->
  (forall i, (i < 24 + fuel)%nat -> interrupt_src E (List.length (slept st) + i) = false) ->
  exists posts sleeps st',
    main fuel E st = (Running, st') /\
    posted st' = (posted st ++ posts)%list /\
    (24 + 3 * fuel <= List.length posts <= 24 + 8 * fuel)%nat /\
    slept st' = (slept st ++ repeat (lit 0.1) 24 ++ sleeps)%list /\
    List.length sleeps = fuel.
Proof.
  intros HE Hint.
  destruct (phase1_run E stocks HE (printed st header_lines))
    as (lines1 & posts1 & st2 & Hrun1 & Hadv1 & Hl1 & _ & Hp1 & _).
  { intros i Hi. apply Hint. cbn in Hi. lia. }
  pose proof (advanced_trans _ _ _ _ _ _ _ _ _ _ _ _ _
                (advanced_printed st header_lines) Hadv1) as Hadv12.
  pose proof (advanced_trans _ _ _ _ _ _ _ _ _ _ _ _ _
                Hadv12 (advanced_printed st2 phase2_lines)) as Hadv13.
  pose proof Hadv13 as (_ & _ & _ & _ & A5).
  cbn [app] in A5. rewrite app_nil_r in A5.
  destruct (loop_running E HE fuel stocks (printed st2 phase2_lines) eq_refl)
    as (nd & nc & lines2 & posts2 & sleeps & st3 & Hrun2 & Hadv2 & Hs & Hb & _).
  { intros i Hi. rewrite A5, length_app, repeat_length, <- Nat.add_assoc.
    apply Hint. cbn. lia. }
  pose proof (advanced_trans _ _ _ _ _ _ _ _ _ _ _ _ _ Hadv13 Hadv2) as (_ & _ & _ & B4 & B5).
  exists (posts1 ++ posts2)%list, sleeps, st3.
  split. { rewrite main_phases, Hrun1, Hrun2. reflexivity. }
  split. { rewrite B4. cbn [app]. rewrite !app_nil_r. reflexivity. }
  split. { rewrite length_app, Hp1. cbn [List.length stocks]. cbn. lia. }
  split; [|exact Hs].
  rewrite B5. cbn [app]. rewrite !app_nil_r. reflexivity.
Qed.

Lemma main_runs_until_interrupted_witness :
  env_ok env_forever /\
  (forall i, (i < 24 + 7)%nat ->
     interrupt_src env_forever (List.length (slept initial_state) + i) = false) /\
  exists st',
    main 7 env_forever initial_state = (Running, st') /\
    List.length (slept st') = 31%nat.
Proof.
  assert (Hok : env_ok env_forever) by (apply with_interrupt_ok, env0_ok).
  assert (Hint : forall i, (i < 24 + 7)%nat ->
     interrupt_src env_forever (List.length (slept initial_state) + i) = false)
    by reflexivity.
  split; [exact Hok|]. split; [exact Hint|].
  destruct (main_runs_until_interrupted env_forever initial_state 7 Hok Hint)
    as (posts & sleeps & st' & Hrun & _ & _ & Hsl & Hlen).
  exists st'. split; [exact Hrun|].
  rewrite Hsl. cbn [slept initial_state app]. rewrite length_app, repeat_length. lia.
Defined.

(** * The program does not react to the server *)

Lemma same_but_lines_refl st : same_but_lines st st.
Proof. unfold same_but_lines. auto. Qed.

Lemma blind_ret {A} (a : A) : server_blind (ret a).
Proof. intros E h st1 st2 H. split; [reflexivity | exact H]. Qed.

Lemma blind_lift {A} (r : result A) : server_blind (lift r).
Proof. intros E h st1 st2 H. split; [reflexivity | exact H]. Qed.

Lemma blind_bind {A B} (m : M A) (k : A -> M B) :
  server_blind m -> (forall a, server_blind (k a)) -> server_blind (bind m k).
Proof.
  intros Hm Hk E h st1 st2 H. unfold bind.
  destruct (Hm E h st1 st2 H) as [Hr Hs].
  destruct (m E st1) as [r1 s1], (m (with_http E h) st2) as [r2 s2].
  cbn [fst snd] in Hr, Hs. subst r2.
  destruct r1 as [a|e|]; [apply Hk; exact Hs | split; [reflexivity | exact Hs] ..].
Qed.

Ltac blind_primitive :=
  let H1 := fresh in let H2 := fresh in let H3 := fresh in
  let H4 := fresh in let H5 := fresh in
  intros ? ? ? ? (H1 & H2 & H3 & H4 & H5); unfold same_but_lines;
  cbn [fst snd draws clock_reads stdout posted slept next_draw next_clock
       gauss_src uniform_src randint_src sample_src now_src time_src
       interrupt_src float_str with_http];
  rewrite ?H1, ?H2, ?H3, ?H4, ?length_app, ?H5; repeat split; reflexivity.

Lemma blind_gauss mu sigma : server_blind (random_gauss mu sigma).
Proof. unfold random_gauss. blind_primitive. Qed.

Lemma blind_uniform a b : server_blind (random_uniform a b).
Proof. unfold random_uniform. blind_primitive. Qed.

Lemma blind_randint a b : server_blind (random_randint a b).
Proof.
  unfold random_randint. intros E h st1 st2 H. destruct (b <? a).
  - split; [reflexivity | exact H].
  - revert E h st1 st2 H. blind_primitive.
Qed.

Lemma blind_sample population k : server_blind (random_sample population k).
Proof.
  unfold random_sample. intros E h st1 st2 H.
  destruct ((k <? 0) || (Z.of_nat (List.length population) <? k)).
  - split; [reflexivity | exact H].
  - revert E h st1 st2 H. blind_primitive.
Qed.

Lemma blind_now : server_blind datetime_now_isoformat.
Proof. unfold datetime_now_isoformat. blind_primitive. Qed.

Lemma blind_time : server_blind time_time.
Proof. unfold time_time. blind_primitive. Qed.

Lemma blind_print line : server_blind (print line).
Proof. unfold print. blind_primitive. Qed.

Lemma blind_sleep d : server_blind (time_sleep d).
Proof.
  unfold time_sleep. intros E h st1 st2 H. cbv zeta.
  cbn [interrupt_src with_http].
  assert (Hs : slept st1 = slept st2) by apply H. rewrite Hs.
  destruct (interrupt_src E (List.length (slept st2)));
    revert E h st1 st2 H Hs; blind_primitive.
Qed.

(** The simulator does not talk to the server at all. *)
Lemma blind_generate sym base vol : server_blind (generate_price_update sym base vol).
Proof.
  unfold generate_price_update.
  repeat (first [ apply blind_bind; [|intro] | apply blind_gauss | apply blind_uniform
                | apply blind_randint | apply blind_lift | apply blind_now
                | apply blind_ret ]).
Qed.

(** The emitter talks to the server, and lets nothing of the answer out but
    the text of the line it prints. *)
Lemma blind_send url sid pd : server_blind (send_price_to_http_source url sid pd).
Proof.
  unfold send_price_to_http_source.
  apply blind_bind; [apply blind_time | intro t].
  apply blind_bind; [apply blind_lift | intro ns].
  intros E h st1 st2 (H1 & H2 & H3 & H4 & H5).
  unfold try_except_Exception, bind, requests_post, float_to_str, print, same_but_lines.
  cbn [http_src with_http]. rewrite H3.
  destruct (http_src E _ _ _) as [c1 b1|d1], (h _ _ _) as [c2 b2|d2];
    cbn [fst snd is_Exception];
    repeat match goal with |- context [if ?c =? 200 then _ else _] => destruct (c =? 200) end;
    cbn [fst snd draws clock_reads stdout posted slept is_Exception];
    rewrite ?H1, ?H2, ?H4, ?length_app, ?H5; repeat split; reflexivity.
Qed.

Lemma blind_for_each {A} (xs : list A) (body : A -> M unit) :
  (forall x, server_blind (body x)) -> server_blind (for_each xs body).
Proof.
  intro Hb. induction xs as [|x xs IH]; cbn [for_each].
  - apply blind_ret.
  - apply blind_bind; [apply Hb | intro; exact IH].
Qed.

Lemma blind_for_fold {A S} (xs : list A) (body : S -> A -> M S) :
  (forall s x, server_blind (body s x)) -> forall s, server_blind (for_fold xs body s).
Proof.
  intro Hb. induction xs as [|x xs IH]; intro s; cbn [for_fold].
  - apply blind_ret.
  - apply blind_bind; [apply Hb | intro; apply IH].
Qed.

Lemma blind_while_true {S} fuel (body : S -> M S) :
  (forall s, server_blind (body s)) -> forall s, server_blind (while_true fuel body s).
Proof.
  intro Hb. induction fuel as [|fuel IH]; intro s; cbn [while_true].
  - apply blind_lift.
  - apply blind_bind; [apply Hb | intro; apply IH].
Qed.

Lemma blind_try_KeyboardInterrupt {A} (body handler : M A) :
  server_blind body -> server_blind handler ->
  server_blind (try_except_KeyboardInterrupt body handler).
Proof.
  intros Hb Hh E h st1 st2 H. unfold try_except_KeyboardInterrupt.
  destruct (Hb E h st1 st2 H) as [Hr Hs].
  destruct (body E st1) as [r1 s1], (body (with_http E h) st2) as [r2 s2].
  cbn [fst snd] in Hr, Hs. subst r2.
  destruct r1 as [a|e|]; try (split; [reflexivity | exact Hs]).
  destruct e; try (split; [reflexivity | exact Hs]).
  apply Hh. exact Hs.
Qed.

Lemma blind_send_initial_prices tbl : server_blind (send_initial_prices tbl).
Proof.
  unfold send_initial_prices. apply blind_for_each. intros [sym base].
  apply blind_bind; [apply blind_generate | intro pd].
  apply blind_bind; [apply blind_send | intro]. apply blind_sleep.
Qed.

Lemma blind_update_symbol tbl sym : server_blind (update_symbol tbl sym).
Proof.
  unfold update_symbol.
  apply blind_bind; [apply blind_lift | intro c].
  apply blind_bind; [apply blind_uniform | intro f].
  apply blind_bind; [apply blind_lift | intro b].
  apply blind_bind; [apply blind_generate | intro pd].
  apply blind_bind; [apply blind_send | intro]. apply blind_ret.
Qed.

Lemma blind_update_cycle tbl : server_blind (update_cycle tbl).
Proof.
  unfold update_cycle.
  apply blind_bind; [apply blind_randint | intro n].
  apply blind_bind; [apply blind_sample | intro syms].
  apply blind_bind; [apply blind_for_fold; intros; apply blind_update_symbol | intro tbl'].
  apply blind_bind; [apply blind_uniform | intro d].
  apply blind_bind; [apply blind_sleep | intro]. apply blind_ret.
Qed.

Lemma blind_main fuel : server_blind (main fuel).
Proof.
  unfold main.
  repeat (apply blind_bind; [first [apply blind_print | apply blind_send_initial_prices] | intro]).
  apply blind_try_KeyboardInterrupt.
  - apply blind_bind; [|intro; apply blind_ret].
    apply blind_while_true. intro. apply blind_update_cycle.
  - apply blind_bind; [apply blind_print | intro; apply blind_print].
Qed.

(** X9. The program does not react to the server.  Run against any two servers
    (answering 200, answering an error, refusing the connection, in any
    mix), [main] ends the same way, posts the same requests in the same
    order, sleeps the same pauses, makes the same draws and clock reads and
    prints the same number of lines: nothing is retried, delayed, skipped or
    abandoned because of an answer; only the text of the lines differs. *)
Theorem main_ignores_the_answers fuel E h st :
  let run := main fuel E st in
  let run' := main fuel (with_http E h) st in
  fst run' = fst run /\
  posted (snd run') = posted (snd run) /\
  slept (snd run') = slept (snd run) /\
  draws (snd run') = draws (snd run) /\
  clock_reads (snd run') = clock_reads (snd run) /\
  List.length (stdout (snd run')) = List.length (stdout (snd run)).
Proof.
  cbv zeta.
  destruct (blind_main fuel E h st st (same_but_lines_refl st))
    as (Hr & H1 & H2 & H3 & H4 & H5).
  repeat split; congruence.
Qed.

(** X10. The symbol table does not depend on the server either: a cycle of
    phase 2 ends the same way, with the same table, and posts the same
    requests, whatever the server answers. *)
Theorem update_cycle_ignores_the_answers tbl E h st :
  fst (update_cycle tbl (with_http E h) st) = fst (update_cycle tbl E st) /\
  posted (snd (update_cycle tbl (with_http E h) st)) = posted (snd (update_cycle tbl E st)).
Proof.
  destruct (blind_update_cycle tbl E h st st (same_but_lines_refl st))
    as (Hr & H1 & H2 & H3 & H4 & H5).
  split; congruence.
Qed.

(** * Timestamps of the envelopes *)

Lemma py_int_mono x y n1 n2 :
  fle (S754_zero false) x = true -> fle x y = true ->
  py_int x = Ok n1 -> py_int y = Ok n2 -> n1 <= n2.
Proof.
  intros H0 Hxy H1 H2.
  pose proof (fle_trans _ _ _ H0 Hxy) as H0y.
  pose proof (py_int_nonneg _ _ H0y H2) as Hn2.
  destruct x as [sx|sx| |sx mx ex]; try discriminate H1.
  - inversion H1. lia.
  - destruct y as [sy|sy| |sy my ey]; try discriminate H2.
    + apply fle_finite in Hxy; [|reflexivity|reflexivity].
      apply fle_finite in H0; [|reflexivity|reflexivity].
      unfold py_int in H1, H2. inversion H2. subst n2.
      assert (Hq : (F2Q (S754_finite sx mx ex) == 0)%Q).
      { change (F2Q (S754_zero sy)) with 0%Q in Hxy.
        change (F2Q (S754_zero false)) with 0%Q in H0. lra. }
      exfalso. pose proof (Qabs_F2Q_pos sx mx ex) as Hp.
      rewrite Hq in Hp. vm_compute in Hp. discriminate Hp.
    + apply fle_finite in Hxy; [|reflexivity|reflexivity].
      apply fle_finite in H0; [|reflexivity|reflexivity].
      change (F2Q (S754_zero false)) with 0%Q in H0.
      assert (Hsx : sx = false).
      { destruct sx; [|reflexivity]. exfalso. pose proof (F2Q_neg mx ex) as Hneg.
        change (F2Q (S754_finite true mx ex)) with (inject_Z (Z.neg mx) * pow2 ex)%Q in H0.
        lra. }
      assert (Hsy : sy = false).
      { destruct sy; [|reflexivity]. exfalso. pose proof (F2Q_neg my ey) as Hneg.
        change (F2Q (S754_finite true my ey)) with (inject_Z (Z.neg my) * pow2 ey)%Q in Hxy.
        lra. }
      subst sx sy. unfold py_int in H1, H2.
      assert (E1 : Qfloor (Qabs (F2Q (S754_finite false mx ex))) = n1) by congruence.
      assert (E2 : Qfloor (Qabs (F2Q (S754_finite false my ey))) = n2) by congruence.
      rewrite <- E1, <- E2.
      apply Qfloor_resp_le. rewrite !Qabs_pos by lra. exact Hxy.
Qed.

Lemma fmul_nonneg t c :
  is_finite t = true -> fle (float_of_int 0) t = true ->
  is_finite c = true -> (0 < F2Q c)%Q ->
  fle (S754_zero false) (fmul t c) = true.
Proof.
  intros Ft H0 Fc Hc.
  destruct (finite_pos_shape c Fc Hc) as (mc & ec & ->).
  destruct t as [s|s| |s m e]; try discriminate Ft.
  - reflexivity.
  - apply fle_finite in H0; [|reflexivity|reflexivity].
    assert (Hs : s = false).
    { destruct s; [|reflexivity]. exfalso. pose proof (F2Q_neg m e) as Hneg.
      change (F2Q (S754_finite true m e)) with (inject_Z (Z.neg m) * pow2 e)%Q in H0.
      change (F2Q (float_of_int 0)) with 0%Q in H0. lra. }
    subst s. cbv beta iota delta [fmul xorb]. apply round_pos_ge_zero.
    apply Qmult_lt_0_compat; apply Qabs_F2Q_pos.
Qed.

(** A later reading of a clock that does not go backwards gives a timestamp
    that is not smaller. *)
Lemma stamp_mono t1 t2 n1 n2 :
  fle (float_of_int 0) t1 = true -> fle t1 t2 = true ->
  fle t2 (float_of_int (2 ^ 63)) = true ->
  py_int (fmul t1 (float_of_int 1000000000)) = Ok n1 ->
  py_int (fmul t2 (float_of_int 1000000000)) = Ok n2 ->
  n1 <= n2.
Proof.
  intros H0 H12 Hmax H1 H2.
  pose proof (fle_trans _ _ _ H0 H12) as H02.
  pose proof (fle_trans _ _ _ H12 Hmax) as H1max.
  destruct (fle_between (float_of_int 0) t1 (float_of_int (2 ^ 63)) eq_refl eq_refl H0 H1max)
    as (F1 & L1 & _).
  destruct (fle_between (float_of_int 0) t2 (float_of_int (2 ^ 63)) eq_refl eq_refl H02 Hmax)
    as (F2 & L2 & _).
  assert (Q9 : (0 < F2Q (float_of_int 1000000000))%Q) by (vm_compute; reflexivity).
  change (F2Q (float_of_int 0)) with 0%Q in L1, L2.
  apply (py_int_mono (fmul t1 (float_of_int 1000000000)) (fmul t2 (float_of_int 1000000000)));
    try assumption.
  - apply fmul_nonneg; try assumption; reflexivity.
  - apply fle_finite in H12; [|exact F1|exact F2].
    destruct (Qlt_le_dec 0 (F2Q t1)) as [P1|Z1].
    + apply fmul_mono_pos; try assumption; try reflexivity; try lra.
    + assert (E1 : exists s, t1 = S754_zero s).
      { destruct t1 as [s|s| |s m e]; try discriminate F1; [eauto|]. exfalso.
        assert (Hq : (F2Q (S754_finite s m e) == 0)%Q) by lra.
        pose proof (Qabs_F2Q_pos s m e) as Hp. rewrite Hq in Hp.
        vm_compute in Hp. discriminate Hp. }
      destruct E1 as (s & ->).
      assert (E9 : float_of_int 1000000000 = S754_finite false 8388608000000000 (-23))
        by (vm_compute; reflexivity).
      apply fle_trans with (S754_zero false).
      * rewrite E9. destruct s; reflexivity.
      * apply fmul_nonneg; try assumption; reflexivity.
Qed.

Lemma FOP_snoc (l : list Z) x :
  ForallOrdPairs Z.le l -> Forall (fun y => y <= x) l -> ForallOrdPairs Z.le (l ++ [x]).
Proof.
  induction 1 as [|a l Ha _ IH]; intro Hx; cbn [app].
  - constructor; constructor.
  - inversion Hx as [|? ? Hax Hlx]; subst. constructor.
    + apply Forall_app. split; [exact Ha | constructor; [exact Hax | constructor]].
    + apply IH. exact Hlx.
Qed.

Lemma sorted_bind {A B} (m : M A) (k : A -> M B) :
  keeps_stamps_sorted m -> (forall a, keeps_stamps_sorted (k a)) ->
  keeps_stamps_sorted (bind m k).
Proof.
  intros Hm Hk E st HE Hc H. unfold bind.
  destruct (Hm E st HE Hc H) as [Hs Hle].
  destruct (m E st) as [[a|e|] st1]; cbn [snd] in Hs, Hle |- *; try (split; assumption).
  destruct (Hk a E st1 HE Hc Hs) as [Hs' Hle']. split; [exact Hs' | lia].
Qed.

(** A computation that posts nothing and does not turn the clock back. *)
Lemma sorted_quiet {A} (m : M A) :
  (forall E st, posted (snd (m E st)) = posted st /\
                (clock_reads st <= clock_reads (snd (m E st)))%nat) ->
  keeps_stamps_sorted m.
Proof.
  intros Hq E st HE Hc [H1 H2]. destruct (Hq E st) as [Hp Hle].
  split; [|exact Hle]. unfold stamps_sorted, stamps in *. rewrite Hp.
  split; [exact H1|]. intros s c n Hs Hcr. apply H2; [exact Hs | lia].
Qed.

Lemma sorted_ret {A} (a : A) : keeps_stamps_sorted (ret a).
Proof. apply sorted_quiet. intros. cbn. auto. Qed.

Lemma sorted_lift {A} (r : result A) : keeps_stamps_sorted (lift r).
Proof. apply sorted_quiet. intros. cbn. auto. Qed.

Lemma sorted_print line : keeps_stamps_sorted (print line).
Proof. apply sorted_quiet. intros. cbn. auto. Qed.

Lemma sorted_sleep d : keeps_stamps_sorted (time_sleep d).
Proof.
  apply sorted_quiet. intros. unfold time_sleep. cbv zeta.
  destruct (interrupt_src E _); cbn; auto.
Qed.

Lemma sorted_uniform a b : keeps_stamps_sorted (random_uniform a b).
Proof. apply sorted_quiet. intros. cbn. auto. Qed.

Lemma sorted_randint a b : keeps_stamps_sorted (random_randint a b).
Proof. apply sorted_quiet. intros. unfold random_randint. destruct (b <? a); cbn; auto. Qed.

Lemma sorted_sample population k : keeps_stamps_sorted (random_sample population k).
Proof.
  apply sorted_quiet. intros. unfold random_sample.
  destruct ((k <? 0) || _); cbn; auto.
Qed.

Lemma sorted_generate sym base vol : keeps_stamps_sorted (generate_price_update sym base vol).
Proof.
  apply sorted_quiet. intros E st. rewrite generate_run.
  destruct (py_int _); cbn; auto.
Qed.

(** The emitter stamps the envelope with the clock read it has just made. *)
Lemma sorted_send url sid pd : keeps_stamps_sorted (send_price_to_http_source url sid pd).
Proof.
  intros E st HE Hc [H1 H2].
  destruct (send_run url sid pd E st HE) as (ns & Hns & _ & Hrun). cbv zeta in Hrun.
  rewrite Hrun. cbn [snd clock_reads]. split; [|lia].
  unfold stamps_sorted, stamps. cbn [posted clock_reads].
  rewrite map_app. cbn [map snd Event.timestamp envelope].
  split.
  - apply FOP_snoc; [exact H1|]. apply Forall_forall. intros s Hs.
    apply (H2 s (clock_reads st) ns Hs (le_n _) Hns).
  - intros s c n Hs Hcr Hn. apply in_app_or in Hs. destruct Hs as [Hs|[<-|[]]].
    + apply (H2 s c n Hs); [lia | exact Hn].
    + destruct (time_range E HE (clock_reads st)) as [T0 _].
      destruct (time_range E HE c) as [_ Tmax].
      apply (stamp_mono (time_src E (clock_reads st)) (time_src E c)); try assumption.
      apply Hc. lia.
Qed.

Lemma sorted_for_each {A} (xs : list A) (body : A -> M unit) :
  (forall x, keeps_stamps_sorted (body x)) -> keeps_stamps_sorted (for_each xs body).
Proof.
  intro Hb. induction xs as [|x xs IH]; cbn [for_each].
  - apply sorted_ret.
  - apply sorted_bind; [apply Hb | intro; exact IH].
Qed.

Lemma sorted_for_fold {A S} (xs : list A) (body : S -> A -> M S) :
  (forall s x, keeps_stamps_sorted (body s x)) ->
  forall s, keeps_stamps_sorted (for_fold xs body s).
Proof.
  intro Hb. induction xs as [|x xs IH]; intro s; cbn [for_fold].
  - apply sorted_ret.
  - apply sorted_bind; [apply Hb | intro; apply IH].
Qed.

Lemma sorted_while_true {S} fuel (body : S -> M S) :
  (forall s, keeps_stamps_sorted (body s)) ->
  forall s, keeps_stamps_sorted (while_true fuel body s).
Proof.
  intro Hb. induction fuel as [|fuel IH]; intro s; cbn [while_true].
  - apply sorted_lift.
  - apply sorted_bind; [apply Hb | intro; apply IH].
Qed.

Lemma sorted_try_KeyboardInterrupt {A} (body handler : M A) :
  keeps_stamps_sorted body -> keeps_stamps_sorted handler ->
  keeps_stamps_sorted (try_except_KeyboardInterrupt body handler).
Proof.
  intros Hb Hh E st HE Hc H. unfold try_except_KeyboardInterrupt.
  destruct (Hb E st HE Hc H) as [Hs Hle].
  destruct (body E st) as [[a|e|] st1]; cbn [snd] in Hs, Hle |- *; try (split; assumption).
  destruct e; try (split; assumption).
  destruct (Hh E st1 HE Hc Hs) as [Hs' Hle']. split; [exact Hs' | lia].
Qed.

Lemma sorted_main fuel : keeps_stamps_sorted (main fuel).
Proof.
  unfold main.
  repeat (apply sorted_bind; [apply sorted_print | intro]).
  apply sorted_bind.
  { unfold send_initial_prices. apply sorted_for_each. intros [sym base].
    apply sorted_bind; [apply sorted_generate | intro pd].
    apply sorted_bind; [apply sorted_send | intro]. apply sorted_sleep. }
  intro.
  repeat (apply sorted_bind; [apply sorted_print | intro]).
  apply sorted_try_KeyboardInterrupt.
  - apply sorted_bind; [|intro; apply sorted_ret].
    apply sorted_while_true. intro tbl. unfold update_cycle.
    apply sorted_bind; [apply sorted_randint | intro n].
    apply sorted_bind; [apply sorted_sample | intro syms].
    apply sorted_bind.
    { apply sorted_for_fold. intros t sym. unfold update_symbol.
      apply sorted_bind; [apply sorted_lift | intro c].
      apply sorted_bind; [apply sorted_uniform | intro f].
      apply sorted_bind; [apply sorted_lift | intro b].
      apply sorted_bind; [apply sorted_generate | intro pd].
      apply sorted_bind; [apply sorted_send | intro]. apply sorted_ret. }
    intro tbl'.
    apply sorted_bind; [apply sorted_uniform | intro d].
    apply sorted_bind; [apply sorted_sleep | intro]. apply sorted_ret.
  - apply sorted_bind; [apply sorted_print | intro; apply sorted_print].
Qed.

(** X11. Envelopes leave in the order of their timestamps.  On a clock that
    never goes backwards, the timestamps of the requests [main] posts, taken
    in the order of the requests, never decrease, through phase 1, phase 2
    and however the run ends. *)
Theorem main_stamps_in_order fuel E st :
  env_ok E -> clock_monotone E -> posted st = [] ->
  ForallOrdPairs Z.le (stamps (snd (main fuel E st))).
Proof.
  intros HE Hc Hp.
  apply (sorted_main fuel E st HE Hc).
  unfold stamps_sorted, stamps. rewrite Hp. split; [constructor|].
  intros s c n [].
Qed.

Lemma main_stamps_in_order_witness :
  env_ok env0 /\ clock_monotone env0 /\ posted initial_state = [] /\
  ForallOrdPairs Z.le (stamps (snd (main 5 env0 initial_state))).
Proof.
  assert (Hc : clock_monotone env0) by (intros i j _; reflexivity).
  split; [exact env0_ok|]. split; [exact Hc|]. split; [reflexivity|].
  exact (main_stamps_in_order 5 env0 initial_state env0_ok Hc eq_refl).
Defined.
